(** * Connect 4 (caiden20000/connect4, src/main.py): a shallow embedding

    The [Board] class and the [BoardTreeNode] search tree of [main.py],
    translated into Rocq.  Conventions of the embedding:
    - Python integers are [Z]; the two marker strings ["□"] and ["■"]
      are the two constructors of [marker] ([p1] and [p2] of the class).
    - Python list indexing [xs[i]] follows Python: a negative index counts
      from the end, and an index out of range raises [IndexError]; the
      lookup [py_index] returns [None] exactly where Python raises.
    - Scores, Python floats built from 0, 1 and 1/6 by [+] and [*], are
      rationals [Q].
    - Board objects are values; the column lists they own are modelled as
      a shared mutable store in module [Heap], where aliasing matters. *)

From Stdlib Require Import String Ascii.
From Stdlib Require Import ZArith Lia List Bool QArith.
Import ListNotations.
Open Scope Z_scope.

(** ** Python helpers *)

(** [xs[i]] with Python's negative indices; [None] where Python raises. *)
Definition py_index {A} (xs : list A) (i : Z) : option A :=
  let n := Z.of_nat (length xs) in
  let j := if i <? 0 then i + n else i in
  if (0 <=? j) && (j <? n) then nth_error xs (Z.to_nat j) else None.

(** [range(lo, hi)] *)
Definition py_range (lo hi : Z) : list Z :=
  map (fun k => lo + Z.of_nat k) (seq 0 (Z.to_nat (hi - lo))).

(** [str(n)] for an integer: its decimal digits. *)
Fixpoint digits_aux (fuel : nat) (n : N) (acc : string) : string :=
  match fuel with
  | O => acc
  | S f =>
      let acc' := String (ascii_of_N (48 + N.modulo n 10)) acc in
      if N.ltb n 10 then acc' else digits_aux f (N.div n 10) acc'
  end.

Definition py_str (z : Z) : string :=
  let d := fun n : N => digits_aux (S (N.size_nat n)) n EmptyString in
  if z <? 0 then append "-" (d (Z.abs_N z)) else d (Z.to_N z).

(** Replace the element at index [i] (in range; the code only updates
    columns it has just indexed). *)
Fixpoint list_set {A} (xs : list A) (i : nat) (v : A) : list A :=
  match xs, i with
  | [], _ => []
  | _ :: t, O => v :: t
  | h :: t, S i' => h :: list_set t i' v
  end.

(** ** The board *)

Inductive marker := Light (* "□" *) | Dark (* "■" *).

Definition marker_eqb (a b : marker) : bool :=
  match a, b with
  | Light, Light | Dark, Dark => true
  | _, _ => false
  end.

Definition p1 : marker := Light.
Definition p2 : marker := Dark.

(** [==] between two results of [get_piece_at] ([str | None]). *)
Definition opt_marker_eqb (a b : option marker) : bool :=
  match a, b with
  | Some x, Some y => marker_eqb x y
  | None, None => true
  | _, _ => false
  end.

Record Board := mkBoard {
  board : list (list marker);
  history : string;
  width : Z;
  height : Z;
  win_length : Z;
  turn : marker
}.

(** [Board.__init__] *)
Definition new_board (win_length width height : Z) : Board :=
  {| board := repeat [] (Z.to_nat width);
     history := EmptyString;
     width := width; height := height; win_length := win_length;
     turn := p1 |}.

(** The boards the program builds: one column list per column index, each
    holding at most [height] pieces. *)
Definition wf_board (b : Board) : Prop :=
  Z.of_nat (length (board b)) = width b /\
  Forall (fun c => Z.of_nat (length c) <= height b) (board b).

(** [self.board[pos]] at an index the code reaches only in range on a
    well-formed board (Python would raise elsewhere). *)
Definition column (b : Board) (pos : Z) : list marker :=
  match py_index (board b) pos with Some c => c | None => [] end.

(** [Board.change_turn] *)
Definition change_turn (b : Board) : Board :=
  {| board := board b; history := history b; width := width b;
     height := height b; win_length := win_length b;
     turn := if marker_eqb (turn b) p1 then p2 else p1 |}.

(** [Board.copy_board_list] *)
Definition copy_board_list (b : Board) : list (list marker) :=
  map (fun col => map (fun v => v) col) (board b).

(** [Board.copy]: a fresh [Board(win_length, width, height)] whose history
    and columns are set; its [turn] is the constructor's. *)
Definition copy (b : Board) : Board :=
  let nb := new_board (win_length b) (width b) (height b) in
  {| board := copy_board_list b; history := history b; width := width nb;
     height := height nb; win_length := win_length nb; turn := turn nb |}.

(** [Board.in_board] *)
Definition in_board (b : Board) (pos : Z) : bool :=
  (0 <=? pos) && (pos <? width b) &&
  (Z.of_nat (length (column b pos)) <? height b).

(** [Board.insert_piece]: the returned flag and the board after the call. *)
Definition insert_piece (b : Board) (pos : Z) : bool * Board :=
  if in_board b pos then
    let b1 := {| board := list_set (board b) (Z.to_nat pos)
                            (column b pos ++ [turn b]);
                 history := append (history b) (py_str pos);
                 width := width b; height := height b;
                 win_length := win_length b; turn := turn b |} in
    (true, change_turn b1)
  else (false, b).

(** [Board.get_piece_at]: the [try]/[except] turns every [IndexError]
    into [None]. *)
Definition get_piece_at (b : Board) (pos vert : Z) : option marker :=
  match py_index (board b) pos with
  | Some col => py_index col vert
  | None => None
  end.

(** [Board.get_column_height] *)
Definition get_column_height (b : Board) (pos : Z) : Z :=
  Z.of_nat (length (column b pos)).

(** [Board.get_top_piece] *)
Definition get_top_piece (b : Board) (pos : Z) : option marker :=
  get_piece_at b pos (get_column_height b pos - 1).

(** [Board.check_win_vertical] *)
Definition check_win_vertical (b : Board) (pos : Z) : bool :=
  let col := column b pos in
  if Z.of_nat (length col) <? win_length b then false
  else forallb (fun i => opt_marker_eqb (py_index col (-(i + 2)))
                                        (py_index col (-1)))
               (py_range 0 (win_length b - 1)).

(** The loop of [check_win_horizontal] over [x], with its counter. *)
Fixpoint horizontal_scan (b : Board) (y : Z) (m : option marker)
    (xs : list Z) (matching : Z) : bool :=
  match xs with
  | [] => false
  | x :: xs' =>
      let matching' :=
        if opt_marker_eqb (get_piece_at b x y) m then matching + 1 else 0 in
      if matching' =? win_length b then true
      else horizontal_scan b y m xs' matching'
  end.

(** [Board.check_win_horizontal] *)
Definition check_win_horizontal (b : Board) (pos : Z) : bool :=
  let y := get_column_height b pos - 1 in
  let match_piece := get_top_piece b pos in
  if (y <? 0) || negb (match match_piece with Some _ => true | None => false end)
  then false
  else
    let leftmost_win := Z.min 0 (pos - win_length b) in
    let rightmost_win := Z.min (pos + win_length b) (width b - 1) in
    horizontal_scan b y match_piece (py_range leftmost_win (rightmost_win + 1)) 0.

(** The loop of [check_win_diagonals] over [x], with its two counters. *)
Fixpoint diagonal_scan (b : Board) (pos y : Z) (m : option marker)
    (xs : list Z) (td_matching dt_matching : Z) : bool :=
  match xs with
  | [] => false
  | x :: xs' =>
      let td_y := y + (pos - x) in
      let dt_y := y + (x - pos) in
      let td' :=
        if opt_marker_eqb (get_piece_at b x td_y) m then td_matching + 1 else 0 in
      let dt' :=
        if opt_marker_eqb (get_piece_at b x dt_y) m then dt_matching + 1 else 0 in
      if (dt' =? win_length b) || (td' =? win_length b) then true
      else diagonal_scan b pos y m xs' td' dt'
  end.

(** [Board.check_win_diagonals] *)
Definition check_win_diagonals (b : Board) (pos : Z) : bool :=
  let y := get_column_height b pos - 1 in
  let match_piece := get_top_piece b pos in
  if (y <? 0) || negb (match match_piece with Some _ => true | None => false end)
  then false
  else
    let leftmost_win := Z.min 0 (pos - win_length b) in
    let rightmost_win := Z.min (pos + win_length b) (width b - 1) in
    diagonal_scan b pos y match_piece
                  (py_range leftmost_win (rightmost_win + 1)) 0 0.

(** [Board.check_win] *)
Definition check_win (b : Board) (pos : Z) : bool :=
  check_win_vertical b pos || check_win_horizontal b pos ||
  check_win_diagonals b pos.

(** [Board.is_full] *)
Definition is_full (b : Board) : bool :=
  forallb (fun col => Z.of_nat (length col) =? height b) (board b).

(** A sequence of [insert_piece] calls: whether all succeeded, and the
    board after them. *)
Fixpoint play (b : Board) (moves : list Z) : bool * Board :=
  match moves with
  | [] => (true, b)
  | m :: ms =>
      let (ok, b1) := insert_piece b m in
      let (ok', b2) := play b1 ms in (ok && ok', b2)
  end.

(** ** The run the spec describes, for comparison with [check_win]

    A cell is on the board when its column is in [0, width) and its row
    in [0, height of that column). *)
Definition cell_in (b : Board) (x y : Z) : bool :=
  (0 <=? x) && (x <? width b) && (0 <=? y) && (y <? get_column_height b x).

(** Along direction [(dx, dy)], some [win_length] consecutive on-board
    cells, one of them the top piece of column [pos], all hold its marker. *)
Definition run_through (b : Board) (pos dx dy : Z) : bool :=
  let y := get_column_height b pos - 1 in
  let m := get_top_piece b pos in
  existsb (fun k =>
    forallb (fun j =>
      let x' := pos + (j - k) * dx in
      let y' := y + (j - k) * dy in
      cell_in b x' y' && opt_marker_eqb (get_piece_at b x' y') m)
      (py_range 0 (win_length b)))
    (py_range 0 (win_length b)).

(** The just-placed piece completes a vertical, horizontal or diagonal run. *)
Definition completes_run (b : Board) (pos : Z) : bool :=
  (0 <=? get_column_height b pos - 1) &&
  (run_through b pos 0 1 || run_through b pos 1 0 ||
   run_through b pos 1 1 || run_through b pos 1 (-1)).

(** ** The search tree *)

#[warnings="-register-all"]
Inductive BoardTreeNode := mkNode {
  nboard : Board;
  score : Q;
  children : list BoardTreeNode;
  up_ratio : Q;
  final : bool;
  legal : bool
}.

(** [BoardTreeNode.__init__] *)
Definition new_node (b : Board) : BoardTreeNode :=
  {| nboard := b; score := 0%Q; children := []; up_ratio := (1 # 6)%Q;
     final := false; legal := true |}.

Definition set_score (n : BoardTreeNode) (s : Q) : BoardTreeNode :=
  {| nboard := nboard n; score := s; children := children n;
     up_ratio := up_ratio n; final := final n; legal := legal n |}.

Definition set_children (n : BoardTreeNode) (cs : list BoardTreeNode)
    : BoardTreeNode :=
  {| nboard := nboard n; score := score n; children := cs;
     up_ratio := up_ratio n; final := final n; legal := legal n |}.

(** [BoardTreeNode.is_populated] *)
Definition is_populated (n : BoardTreeNode) : bool :=
  Nat.ltb 0 (length (children n)).

(** One iteration of the [for pos in range(self.board.width)] loop of
    [populate]: the child node for column [pos]. *)
Definition make_child (b : Board) (pos : Z) : BoardTreeNode :=
  let new_node0 := new_node (copy b) in
  let (ok, b1) := insert_piece (nboard new_node0) pos in
  let nn := {| nboard := b1; score := score new_node0;
               children := children new_node0; up_ratio := up_ratio new_node0;
               final := final new_node0; legal := legal new_node0 |} in
  if negb ok then
    {| nboard := b1; score := 0%Q; children := children nn;
       up_ratio := up_ratio nn; final := true; legal := false |}
  else if check_win b1 pos then
    {| nboard := b1; score := 1%Q; children := children nn;
       up_ratio := up_ratio nn; final := true; legal := legal nn |}
  else if is_full b1 then
    {| nboard := b1; score := 0%Q; children := children nn;
       up_ratio := up_ratio nn; final := true; legal := legal nn |}
  else nn.

(** The children appended by the loop, in column order. *)
Definition make_children (b : Board) : list BoardTreeNode :=
  map (make_child b) (py_range 0 (width b)).

(** The loop [for child in self.children] of [populate]: each non-final
    child is populated by [pop] (one level shallower) and
    [child.score * self.up_ratio * -1] is added to the running score. *)
Fixpoint populate_loop (pop : BoardTreeNode -> BoardTreeNode * Q)
    (ratio : Q) (cs : list BoardTreeNode) (acc : Q)
    : list BoardTreeNode * Q :=
  match cs with
  | [] => ([], acc)
  | c :: cs' =>
      let c' := if negb (final c) then fst (pop c) else c in
      let (rest, acc') :=
        populate_loop pop ratio cs' (acc + score c' * ratio * (-1))%Q in
      (c' :: rest, acc')
  end.

(** [BoardTreeNode.populate], by the remaining depth [d = max depth 0]:
    the node after the call and the returned score.  A populated node has
    its score reset to 0; an unpopulated one gets its children appended and
    keeps its score as the start of the sum. *)
Fixpoint populate_nat (d : nat) (n : BoardTreeNode) : BoardTreeNode * Q :=
  match d with
  | O => (set_score n 0%Q, 0%Q)
  | S d' =>
      if negb (legal n) then (set_score n 0%Q, 0%Q)
      else
        let n1 := if is_populated n then set_score n 0%Q
                  else set_children n (children n ++ make_children (nboard n)) in
        let (cs, sc) :=
          populate_loop (populate_nat d') (up_ratio n1) (children n1) (score n1) in
        (set_score (set_children n1 cs) sc, sc)
  end.

(** [populate(depth)]: [depth <= 0] is [d = 0], and the recursive call
    [populate(depth - 1)] of a positive [depth] is [d - 1]. *)
Definition populate (depth : Z) (n : BoardTreeNode) : BoardTreeNode * Q :=
  populate_nat (Z.to_nat depth) n.

(** [BoardTreeNode.get_best_pos] (the [print] is output only): the loop
    over [enumerate(self.children)] with [best_score] and [best_pos]. *)
Fixpoint best_loop (cs : list BoardTreeNode) (pos : nat)
    (best_score : option Q) (best_pos : option nat) : option nat :=
  match cs with
  | [] => best_pos
  | c :: cs' =>
      if legal c && match best_score with
                    | None => true
                    | Some bs => negb (Qle_bool (score c) bs)  (* best_score < child.score *)
                    end
      then best_loop cs' (S pos) (Some (score c)) (Some pos)
      else best_loop cs' (S pos) best_score best_pos
  end.

Definition get_best_pos (n : BoardTreeNode) : nat :=
  match best_loop (children n) 0 None None with
  | Some p => p
  | None => 0%nat
  end.

(** ** Concrete positions *)

(** Row 0 reads [□ □ ■ ■ ■ □ □]: player one has just dropped into column 0,
    after the moves 1, 2, 5, 3, 6, 4. *)
Definition wrap_moves : list Z := [1; 2; 5; 3; 6; 4; 0].

(** The end-to-end scenario of the spec: columns 0, 0, 0, 1, 1, 1, then 2. *)
Definition scenario_moves : list Z := [0; 0; 0; 1; 1; 1; 2].

(** What the loop of [populate] makes of one child: [child.populate] when
    it is not final, the child itself otherwise. *)
Definition repopulate (pop : BoardTreeNode -> BoardTreeNode * Q)
    (c : BoardTreeNode) : BoardTreeNode :=
  if negb (final c) then fst (pop c) else c.

(** A 1x1 board with [win_length = 4] (the game [main.py 4 1 1]). *)
Definition tiny_root : BoardTreeNode := new_node (new_board 4 1 1).

(** ** The random bot: [get_bot_response] *)

(** [list.remove(x)]: drops the first occurrence of [x]. *)
Fixpoint remove_first (x : Z) (xs : list Z) : list Z :=
  match xs with
  | [] => []
  | y :: ys => if Z.eqb x y then ys else y :: remove_first x ys
  end.

(** [random.choice(seq)] on a non-empty [seq]: the element at the index
    [r mod len(seq)] drawn by the random source. *)
Definition random_choice (seq : list Z) (r : nat) : Z :=
  nth (Nat.modulo r (length seq)) seq 0.

(** The [while] loop of [get_bot_response]; [rnd k] is the [k]-th draw of
    the random source.  Each iteration removes one element of [legal], so
    [fuel = len(legal)] is enough. *)
Fixpoint bot_loop (b : Board) (rnd : nat -> nat) (k : nat) (fuel : nat)
    (legal : list Z) (choice : Z) : Z :=
  match fuel with
  | O => choice
  | S f =>
      if get_column_height b choice =? height b then
        let legal' := remove_first choice legal in
        match legal' with
        | [] => choice  (* "Bot cannot make a move!"; break *)
        | _ => bot_loop b rnd (S k) f legal' (random_choice legal' (rnd k))
        end
      else choice
  end.

(** [get_bot_response]: for [width >= 1] ([random.choice] of an empty list
    raises otherwise). *)
Definition get_bot_response (b : Board) (rnd : nat -> nat) : string :=
  let legal := py_range 0 (width b) in
  let choice := random_choice legal (rnd 0%nat) in
  py_str (bot_loop b rnd 1 (length legal) legal choice).

(** The number of pieces on a board. *)
Definition piece_count (b : Board) : nat :=
  fold_right (fun c acc => (length c + acc)%nat) 0%nat (board b).

(** ** Rendering *)

(** A Python [str] as the list of its code points. *)
Definition pstr := list N.

(** An ASCII literal. *)
Definition pstr_of (s : string) : pstr := map N_of_ascii (list_ascii_of_string s).

Definition NL : N := 10.          (* newline *)
Definition BOX_H : N := 9472.     (* U+2500 *)
Definition BOX_V : N := 9474.     (* U+2502 *)
Definition BOX_DR : N := 9484.    (* U+250C *)
Definition BOX_DL : N := 9488.    (* U+2510 *)
Definition BOX_UR : N := 9492.    (* U+2514 *)
Definition BOX_UL : N := 9496.    (* U+2518 *)
Definition BOX_VR : N := 9500.    (* U+251C *)
Definition BOX_VL : N := 9508.    (* U+2524 *)
Definition LEFT_QUARTER : N := 9614.  (* U+258E *)
Definition RIGHT_EIGHTH : N := 9621.  (* U+2595 *)

(** [self.p1] is U+25A1 and [self.p2] is U+25A0. *)
Definition marker_str (m : marker) : pstr :=
  match m with Light => [9633%N] | Dark => [9632%N] end.

(** [Board.get_piece_string] *)
Definition get_piece_string (b : Board) (pos vert : Z) : pstr :=
  match get_piece_at b pos vert with
  | Some result => marker_str result
  | None => pstr_of " "
  end.

(** [sep.join(parts)] *)
Fixpoint str_join (sep : pstr) (parts : list pstr) : pstr :=
  match parts with
  | [] => []
  | [p] => p
  | p :: ps => p ++ sep ++ str_join sep ps
  end.

(** [s * n] ([""] for [n <= 0]). *)
Definition str_mul (s : pstr) (n : Z) : pstr := concat (repeat s (Z.to_nat n)).

(** The inner loop [for x in range(self.width)] of [to_string]. *)
Fixpoint row_loop (b : Board) (y : Z) (xs : list Z) (line : pstr) : pstr :=
  match xs with
  | [] => line
  | x :: xs' =>
      let line := line ++ get_piece_string b x y in
      let line := if x <? width b - 1 then line ++ pstr_of "  " else line in
      row_loop b y xs' line
  end.

(** The outer loop [for y in range(self.height)] of [to_string]: each row
    goes in front of the text built so far. *)
Fixpoint rows_loop (b : Board) (ys : list Z) (result : pstr) : pstr :=
  match ys with
  | [] => result
  | y :: ys' =>
      let line := row_loop b y (py_range 0 (width b)) [] in
      rows_loop b ys' ([BOX_V] ++ line ++ [BOX_V] ++ pstr_of " " ++
                       pstr_of (py_str y) ++ [NL] ++ result)
  end.

(** [Board.to_string] *)
Definition to_string (b : Board) : pstr :=
  let border := str_mul [BOX_H; BOX_H; BOX_H] (width b - 2) in
  let result := [BOX_V] ++
                str_join [RIGHT_EIGHTH; LEFT_QUARTER]
                         (map (fun x => pstr_of (py_str x)) (py_range 0 (width b))) ++
                [BOX_V] in
  let result := [BOX_VR; BOX_H; BOX_H] ++ border ++ [BOX_H; BOX_H; BOX_VL; NL] ++ result in
  let result := rows_loop b (py_range 0 (height b)) result in
  let result := [BOX_DR; BOX_H; BOX_H] ++ border ++ [BOX_H; BOX_H; BOX_DL; NL] ++ result in
  let result := pstr_of "To win, must get " ++ pstr_of (py_str (win_length b)) ++
                pstr_of " in a row." ++ [NL; NL] ++ result in
  result ++ [NL; BOX_UR; BOX_H; BOX_H] ++ border ++ [BOX_H; BOX_H; BOX_UL].

(** The lines of a text, [s.split("\n")]. *)
Fixpoint str_lines (s : pstr) : list pstr :=
  match s with
  | [] => [[]]
  | c :: s' =>
      let ls := str_lines s' in
      if N.eqb c NL then [] :: ls
      else match ls with
           | [] => [[c]]
           | l :: ls' => (c :: l) :: ls'
           end
  end.

(** The line [rows_loop] writes for row [y]. *)
Definition row_line (b : Board) (y : Z) : pstr :=
  [BOX_V] ++ row_loop b y (py_range 0 (width b)) [] ++ [BOX_V] ++ pstr_of " " ++
  pstr_of (py_str y).

(** ** The game loop *)

(** The module constant [BOT]. *)
Definition BOT : bool := true.

(** The locals [board] and [tree] of [game] between two iterations of its
    loop. *)
Record GameState := mkGame {
  gboard : Board;
  gtree : BoardTreeNode
}.

(** [game] up to its [while] loop.  The root of the tree holds the game's
    board object itself; [populate] only reads that board (each child gets
    a [copy]), and from the first move on [tree] is a child with a board of
    its own, so the sharing is not observable. *)
Definition game_start (win_length width height : Z) : GameState :=
  let b := new_board win_length width height in
  let tree := new_node b in
  {| gboard := b; gtree := if BOT then fst (populate 5 tree) else tree |}.

(** [bot_player] *)
Definition bot_player_of (bot_p1 : bool) : marker := if bot_p1 then p1 else p2.

Inductive game_outcome :=
| GameContinue (st : GameState)  (* the loop goes on *)
| GameWon (st : GameState)       (* [break] after [check_win] *)
| GameCrash.                     (* [tree.children[pos]] raises [IndexError] *)

(** One iteration of the [while not win] loop of [game] (the prints are
    output only).  The line typed by the user is [Some n] when [int()]
    reads it as [n] and [None] when [int()] raises [ValueError]; on the
    bot's turn the move is [tree.get_best_pos()] instead. *)
Definition game_step (bot_player : marker) (st : GameState)
    (user_input : option Z) : game_outcome :=
  let input :=
    if BOT && marker_eqb (turn (gboard st)) bot_player
    then Some (Z.of_nat (get_best_pos (gtree st)))
    else user_input in
  match input with
  | None => GameContinue st  (* "Bad input!" *)
  | Some pos =>
      let (ok, b') := insert_piece (gboard st) pos in
      if ok then
        if check_win b' pos then GameWon {| gboard := b'; gtree := gtree st |}
        else if BOT then
          match py_index (children (gtree st)) pos with
          | Some t => GameContinue {| gboard := b'; gtree := fst (populate 5 t) |}
          | None => GameCrash
          end
        else GameContinue {| gboard := b'; gtree := gtree st |}
      else GameContinue st  (* "Can't go there!" *)
  end.

(** The player [game] announces after the loop: [board.change_turn()]
    then [board.turn]. *)
Definition game_winner (st : GameState) : marker :=
  turn (change_turn (gboard st)).

(** The [while not win] loop of [game] fed with a sequence of typed lines:
    the outcome once they are used up, or the first [break] or crash. *)
Fixpoint game_run (bot_player : marker) (st : GameState)
    (inputs : list (option Z)) : game_outcome :=
  match inputs with
  | [] => GameContinue st
  | i :: is =>
      match game_step bot_player st i with
      | GameContinue st' => game_run bot_player st' is
      | o => o
      end
  end.

(** What the game reads of a child node: its board and legality. *)
Definition node_view (c : BoardTreeNode) : Board * bool := (nboard c, legal c).

(** Every node of a tree the program builds has either no children or the
    children [populate] makes from its own board, one per column. *)
Fixpoint tree_ok (n : BoardTreeNode) : Prop :=
  match n with
  | mkNode b _ cs _ _ _ =>
      (cs = [] \/ map node_view cs = map node_view (make_children b)) /\
      (fix all_ok (l : list BoardTreeNode) : Prop :=
         match l with
         | [] => True
         | c :: l' => tree_ok c /\ all_ok l'
         end) cs
  end.

(** Two boards with the same dimensions and column heights (the markers
    may differ). *)
Definition same_shape (b b' : Board) : Prop :=
  map (@length marker) (board b) = map (@length marker) (board b') /\
  width b = width b' /\ height b = height b'.

(** The state of [game] between iterations: the tree is well built, its
    root is expanded, and its board has the game board's shape. *)
Definition game_inv (st : GameState) : Prop :=
  tree_ok (gtree st) /\
  map node_view (children (gtree st)) =
    map node_view (make_children (nboard (gtree st))) /\
  same_shape (nboard (gtree st)) (gboard st).

(** ** Column storage: the aliasing model *)

(** The column lists of a board are Python list objects, mutated in place
    by [append].  Here they live in a store (an append-only heap of lists,
    a location being an index into it), and a board holds the locations of
    its columns.  Strings and integers are immutable, so the other fields
    stay values of the board object. *)
Module Heap.

Definition loc := nat.
Definition store := list (list marker).

Definition read (st : store) (l : loc) : list marker := nth l st [].

(** A new list object holding [v]. *)
Definition alloc (st : store) (v : list marker) : store * loc :=
  (st ++ [v], length st).

Record HBoard := mkHBoard {
  hcols : list loc;
  hhistory : string;
  hwidth : Z;
  hheight : Z;
  hwin_length : Z;
  hturn : marker
}.

(** The column contents a board sees. *)
Definition view (st : store) (hb : HBoard) : list (list marker) :=
  map (read st) (hcols hb).

(** [[[] for _ in range(width)]] *)
Fixpoint alloc_empties (st : store) (k : nat) : store * list loc :=
  match k with
  | O => (st, [])
  | S k' =>
      let (st1, l) := alloc st [] in
      let (st2, ls) := alloc_empties st1 k' in (st2, l :: ls)
  end.

(** [Board.__init__] *)
Definition hnew_board (st : store) (win_length width height : Z)
    : store * HBoard :=
  let (st1, ls) := alloc_empties st (Z.to_nat width) in
  (st1, {| hcols := ls; hhistory := EmptyString; hwidth := width;
           hheight := height; hwin_length := win_length; hturn := p1 |}).

(** [Board.copy_board_list]: a new list per column, with its elements. *)
Fixpoint copy_cols (st : store) (ls : list loc) : store * list loc :=
  match ls with
  | [] => (st, [])
  | l :: ls' =>
      let (st1, l') := alloc st (map (fun v => v) (read st l)) in
      let (st2, ls'') := copy_cols st1 ls' in (st2, l' :: ls'')
  end.

(** [Board.copy] *)
Definition hcopy (st : store) (hb : HBoard) : store * HBoard :=
  let (st1, nb) := hnew_board st (hwin_length hb) (hwidth hb) (hheight hb) in
  let (st2, ls) := copy_cols st1 (hcols hb) in
  (st2, {| hcols := ls; hhistory := hhistory hb; hwidth := hwidth nb;
           hheight := hheight nb; hwin_length := hwin_length nb;
           hturn := hturn nb |}).

(** The list object [self.board[pos]]. *)
Definition col_loc (hb : HBoard) (pos : Z) : loc :=
  match py_index (hcols hb) pos with Some l => l | None => 0%nat end.

(** [Board.in_board] *)
Definition hin_board (st : store) (hb : HBoard) (pos : Z) : bool :=
  (0 <=? pos) && (pos <? hwidth hb) &&
  (Z.of_nat (length (read st (col_loc hb pos))) <? hheight hb).

(** [Board.insert_piece]: the store, the result and the board object. *)
Definition hinsert_piece (st : store) (hb : HBoard) (pos : Z)
    : store * bool * HBoard :=
  if hin_board st hb pos then
    let l := col_loc hb pos in
    (list_set st l (read st l ++ [hturn hb]), true,
     {| hcols := hcols hb; hhistory := append (hhistory hb) (py_str pos);
        hwidth := hwidth hb; hheight := hheight hb;
        hwin_length := hwin_length hb;
        hturn := if marker_eqb (hturn hb) p1 then p2 else p1 |})
  else (st, false, hb).

(** Every column location of [hb] is allocated in [st]. *)
Definition valid (st : store) (hb : HBoard) : Prop :=
  Forall (fun l => (l < length st)%nat) (hcols hb).

(** The value board a heap board stands for. *)
Definition to_board (st : store) (hb : HBoard) : Board :=
  {| board := view st hb; history := hhistory hb; width := hwidth hb;
     height := hheight hb; win_length := hwin_length hb; turn := hturn hb |}.

(** A 7-column board with two pieces, built by the constructor and two
    placements. *)
Definition sample_board : store * HBoard :=
  let (st0, hb0) := hnew_board [] 4 7 6 in
  let '(st1, _, hb1) := hinsert_piece st0 hb0 3 in
  let '(st2, _, hb2) := hinsert_piece st1 hb1 3 in (st2, hb2).

End Heap.

(** ** Lemmas on the Python helpers *)

Lemma py_index_nonneg {A} (xs : list A) (i : Z) :
  0 <= i -> py_index xs i = nth_error xs (Z.to_nat i).
Proof.
  intros Hi. unfold py_index.
  destruct (Z.ltb_spec i 0); [lia|].
  destruct (Z.leb_spec 0 i); [|lia].
  destruct (Z.ltb_spec i (Z.of_nat (length xs))); simpl; [reflexivity|].
  symmetry. apply nth_error_None. lia.
Qed.

Lemma length_list_set {A} (xs : list A) i v :
  length (list_set xs i v) = length xs.
Proof.
  revert i; induction xs as [|h t IH]; intros [|i]; simpl; auto.
Qed.

Lemma nth_error_list_set {A} (xs : list A) i j v :
  (i < length xs)%nat ->
  nth_error (list_set xs i v) j = if Nat.eqb i j then Some v else nth_error xs j.
Proof.
  revert i j; induction xs as [|h t IH]; intros [|i] [|j] Hi; simpl in *;
    try lia; auto.
  apply IH; lia.
Qed.

Lemma column_in_range (b : Board) (x : Z) :
  0 <= x -> column b x = match nth_error (board b) (Z.to_nat x) with
                         | Some c => c | None => [] end.
Proof. intros Hx. unfold column. now rewrite py_index_nonneg. Qed.

(** ** Claim C2: [insert_piece] *)

(** C2. [insert_piece b pos] on a well-formed board fails, returning
    [false] with the whole board (columns, history, turn) unchanged, exactly
    when [pos] is outside [0, width) or the column already holds [height]
    pieces.  Otherwise it returns [true], appends one piece with the current
    turn's marker to column [pos], leaves every other column unchanged,
    appends [str(pos)] to the history and flips the turn once. *)
Theorem insert_piece_spec (b : Board) (pos : Z) :
  wf_board b ->
  let (ok, b') := insert_piece b pos in
  (ok = false <->
     (pos < 0 \/ width b <= pos \/ height b <= get_column_height b pos)) /\
  (ok = false -> b' = b) /\
  (ok = true ->
     length (board b') = length (board b) /\
     (forall x, 0 <= x < width b ->
        column b' x = if x =? pos then column b pos ++ [turn b]
                      else column b x) /\
     history b' = append (history b) (py_str pos) /\
     turn b' = (if marker_eqb (turn b) p1 then p2 else p1) /\
     turn b' <> turn b /\
     width b' = width b /\ height b' = height b /\
     win_length b' = win_length b).
Proof.
  intros [Hlen _].
  unfold insert_piece, in_board, get_column_height.
  destruct (Z.leb_spec 0 pos); destruct (Z.ltb_spec pos (width b));
    destruct (Z.ltb_spec (Z.of_nat (length (column b pos))) (height b));
    simpl; repeat split; intros; try lia; try discriminate; try reflexivity.
  - rewrite length_list_set. reflexivity.
  - rewrite !column_in_range by lia. simpl.
    rewrite nth_error_list_set by lia.
    destruct (Z.eqb_spec x pos) as [->|Hne].
    + rewrite Nat.eqb_refl. reflexivity.
    + replace (Nat.eqb (Z.to_nat pos) (Z.to_nat x)) with false; [reflexivity|].
      symmetry. apply Nat.eqb_neq. lia.
  - destruct (turn b); discriminate.
Qed.

Lemma insert_piece_spec_witness :
  wf_board (new_board 4 7 6) /\
  (let (ok, b') := insert_piece (new_board 4 7 6) 3 in
   (ok = false <-> (3 < 0 \/ 7 <= 3 \/ 6 <= get_column_height (new_board 4 7 6) 3))).
Proof.
  assert (W : wf_board (new_board 4 7 6)).
  { vm_compute. split; [reflexivity|]. repeat constructor; discriminate. }
  split; [exact W|].
  pose proof (insert_piece_spec (new_board 4 7 6) 3 W) as H.
  destruct (insert_piece (new_board 4 7 6) 3). exact (proj1 H).
Defined.

(** ** Claim C8: [copy] does not carry the turn over *)

(** C8. [copy b] has the turn of a fresh board, player one's, whatever the
    turn of [b]; columns, history and dimensions are carried over.  So the
    copy of a board where player two is to move differs from it in the turn,
    the marker the next placement appends ([insert_piece] appends [turn]). *)
Theorem copy_resets_turn (b : Board) :
  turn (copy b) = p1 /\
  board (copy b) = board b /\ history (copy b) = history b /\
  width (copy b) = width b /\ height (copy b) = height b /\
  win_length (copy b) = win_length b /\
  (turn b = p2 -> copy b <> b).
Proof.
  assert (Hb : copy_board_list b = board b).
  { unfold copy_board_list. induction (board b) as [|c cs IH]; simpl; [reflexivity|].
    rewrite IH, map_id. reflexivity. }
  unfold copy; simpl; rewrite Hb.
  repeat split; try reflexivity.
  intros Ht Heq. rewrite <- Heq in Ht. discriminate.
Qed.

(** Player two to move after one placement; the copy places player one's
    marker. *)
Example copy_places_p1 :
  let b := snd (play (new_board 4 7 6) [3]) in
  turn b = p2 /\
  column (snd (insert_piece b 3)) 3 = [p1; p2] /\
  column (snd (insert_piece (copy b) 3)) 3 = [p1; p1].
Proof. vm_compute. repeat split. Qed.

(** ** Claim C9: [get_piece_at] outside the board *)

(** Off the board on the non-negative side, [get_piece_at] is [None]. *)
Lemma get_piece_at_beyond (b : Board) (x y : Z) :
  0 <= x -> 0 <= y -> cell_in b x y = false ->
  wf_board b -> get_piece_at b x y = None.
Proof.
  intros Hx Hy Hc [Hlen _]. unfold cell_in, get_column_height in Hc.
  unfold get_piece_at. rewrite py_index_nonneg by lia.
  destruct (nth_error (board b) (Z.to_nat x)) as [col|] eqn:E; [|reflexivity].
  rewrite py_index_nonneg by lia.
  apply nth_error_None.
  assert (Hxl : (Z.to_nat x < length (board b))%nat).
  { apply nth_error_Some. congruence. }
  rewrite column_in_range in Hc by lia. rewrite E in Hc.
  destruct (Z.leb_spec 0 x); destruct (Z.ltb_spec x (width b));
    destruct (Z.leb_spec 0 y); destruct (Z.ltb_spec y (Z.of_nat (length col)));
    simpl in Hc; try discriminate; lia.
Qed.

(** C9 (fails). A negative coordinate is read Python-style from the end of
    the list: with one piece in column 0 of a 7x6 board, [get_piece_at]
    returns that piece at row -1 and at column -7, both off the board. *)
Theorem get_piece_at_negative_index :
  let b := snd (play (new_board 4 7 6) [0]) in
  wf_board b /\
  cell_in b 0 (-1) = false /\ get_piece_at b 0 (-1) = Some p1 /\
  cell_in b (-7) 0 = false /\ get_piece_at b (-7) 0 = Some p1.
Proof.
  vm_compute. repeat split; try reflexivity.
  repeat constructor; discriminate.
Qed.

(** ** Claim C10: the end-to-end scenario *)

(** C10 (as stated, fails). After the placements 0, 0, 0, 1, 1, 1 and 2 on
    a 7x6 board with [win_length = 4], [check_win 2] is not true. *)
Lemma scenario_check_win_not_true :
  let (ok, b) := play (new_board 4 7 6) scenario_moves in
  ok = true /\ ~ (check_win b 2 = true).
Proof. vm_compute. split; [reflexivity | discriminate]. Qed.

(** C10 (amended). All seven placements succeed, the last lands at row 0
    of column 2 with player one's marker, and [check_win 2] returns [false]:
    row 0 reads [□ ■ □] and the diagonal through it holds three [□]. *)
Theorem scenario_no_win :
  let (ok, b) := play (new_board 4 7 6) scenario_moves in
  ok = true /\ column b 2 = [p1] /\
  column b 0 = [p1; p2; p1] /\ column b 1 = [p2; p1; p2] /\
  check_win b 2 = false /\ completes_run b 2 = false.
Proof. vm_compute. repeat split. Qed.

(** ** Claim C1: [check_win] *)

(** C1 (fails). [Z.min 0 (pos - win_length)] starts the horizontal and
    diagonal windows left of column 0, where Python's negative indices read
    the columns at the right edge.  After the moves 1, 2, 5, 3, 6, 4, 0 row 0
    is [□ □ ■ ■ ■ □ □]: the scan reads columns 3, 4, 5, 6, 0, 1 and counts
    the four [□] of columns 5, 6, 0, 1 as a run, so [check_win 0] is [true]
    although no run of four passes through the piece just placed. *)
Theorem check_win_wraps_around :
  let (ok, b) := play (new_board 4 7 6) wrap_moves in
  ok = true /\ wf_board b /\
  Z.min 0 (0 - win_length b) = -4 /\
  get_piece_at b (-2) 0 = Some p1 /\ get_piece_at b (-1) 0 = Some p1 /\
  check_win_vertical b 0 = false /\ check_win_horizontal b 0 = true /\
  check_win b 0 = true /\ completes_run b 0 = false.
Proof.
  vm_compute. repeat split; try reflexivity.
  repeat constructor; discriminate.
Qed.

(** ** The search tree: [populate] *)

Lemma populate_loop_children pop ratio cs acc :
  fst (populate_loop pop ratio cs acc) = map (repopulate pop) cs.
Proof.
  revert acc; induction cs as [|c cs IH]; intros acc; simpl; [reflexivity|].
  specialize (IH (acc + score (repopulate pop c) * ratio * -1)%Q).
  unfold repopulate in *.
  destruct (populate_loop _ _ _ _) as [rest acc'] eqn:E; simpl in *.
  now rewrite IH.
Qed.

Lemma populate_loop_score pop ratio cs acc :
  snd (populate_loop pop ratio cs acc) =
  fold_left (fun a c => a + score c * ratio * (-1))%Q
            (fst (populate_loop pop ratio cs acc)) acc.
Proof.
  revert acc; induction cs as [|c cs IH]; intros acc; simpl; [reflexivity|].
  specialize (IH (acc + score (repopulate pop c) * ratio * -1)%Q).
  unfold repopulate in *.
  destruct (populate_loop _ _ _ _) as [rest acc'] eqn:E; simpl in *.
  exact IH.
Qed.

(** [populate] never changes a node's board, flags or ratio. *)
Lemma populate_nat_keeps d n :
  let n' := fst (populate_nat d n) in
  nboard n' = nboard n /\ final n' = final n /\ legal n' = legal n /\
  up_ratio n' = up_ratio n.
Proof.
  destruct d as [|d]; simpl; [repeat split|].
  destruct (legal n) eqn:L; simpl; [|repeat split; congruence].
  destruct (is_populated n); simpl;
    match goal with
    | |- context [populate_loop ?p ?r ?cs ?a] => destruct (populate_loop p r cs a)
    end; simpl; repeat split; congruence.
Qed.

(** The children after [populate] at a positive depth on a legal node: the
    existing ones, or the [width] new ones, each re-populated unless final. *)
Lemma populate_nat_children d n :
  legal n = true ->
  children (fst (populate_nat (S d) n)) =
  map (repopulate (populate_nat d))
      (if is_populated n then children n
       else children n ++ make_children (nboard n)).
Proof.
  intros L. simpl. rewrite L. simpl.
  pose proof (populate_loop_children (populate_nat d)) as HC.
  destruct (is_populated n); simpl;
    match goal with
    | |- context [populate_loop ?p ?r ?cs ?a] =>
        specialize (HC r cs a); destruct (populate_loop p r cs a)
    end; simpl in *; exact HC.
Qed.

Lemma populate_nat_score d n :
  legal n = true ->
  let (n', s) := populate_nat (S d) n in
  s = score n' /\
  score n' = fold_left (fun a c => a + score c * up_ratio n * (-1))%Q
               (children n')
               (if is_populated n then 0%Q else score n).
Proof.
  intros L. simpl. rewrite L. simpl.
  pose proof (populate_loop_score (populate_nat d)) as HS.
  pose proof (populate_loop_children (populate_nat d)) as HC.
  destruct (is_populated n); simpl;
    match goal with
    | |- context [populate_loop ?p ?r ?cs ?a] =>
        specialize (HS r cs a); specialize (HC r cs a);
        destruct (populate_loop p r cs a)
    end; simpl in *; split; congruence.
Qed.

(** A non-final child made by [populate] is a fresh node: no children and
    score 0. *)
Lemma make_child_nonfinal_fresh b pos :
  final (make_child b pos) = false ->
  children (make_child b pos) = [] /\ score (make_child b pos) = 0%Q.
Proof.
  unfold make_child. destruct (insert_piece _ pos) as [[|] b1]; simpl;
    [|discriminate].
  destruct (check_win b1 pos); [discriminate|].
  destruct (is_full b1); [discriminate|]. simpl. auto.
Qed.

(** ** Claim C3: score aggregation *)

(** C3. For a node with no children only if its score is 0 (every node the
    program builds: fresh nodes, see [make_child_nonfinal_fresh], and nodes
    populated before), [populate] at a positive depth on a legal node
    returns and stores the sum over all its children, legal or not, of
    [child.score * up_ratio * -1], the fixed ratio being [-1/6]; at a depth
    [<= 0] or on an illegal node it only sets the score to 0. *)
Lemma populate_pos depth n :
  0 < depth -> populate depth n = populate_nat (S (Z.to_nat (depth - 1))) n.
Proof.
  intros H. unfold populate. f_equal. lia.
Qed.

Lemma is_populated_false n : is_populated n = false -> children n = [].
Proof.
  unfold is_populated. destruct (children n); simpl; [reflexivity|discriminate].
Qed.

(** ** Claim C3: score aggregation *)

(** C3. For a node whose score is 0 while it has no children (every node
    the program builds: fresh nodes, the non-final children of
    [make_child_nonfinal_fresh], nodes populated before), [populate] at a
    positive depth on a legal node returns and stores the sum over all its
    children, legal or not and each scaled alike, of
    [child.score * up_ratio * -1] (the fixed ratio [-1/6] of
    [new_node]); at a depth [<= 0] or on an illegal node it only sets the
    score to 0, children untouched. *)
Theorem populate_score_sum (n : BoardTreeNode) (depth : Z) :
  (children n = [] -> score n = 0%Q) ->
  (legal n = true -> 0 < depth ->
   let (n', s) := populate depth n in
   s = score n' /\
   score n' = fold_left (fun a c => a + score c * up_ratio n * (-1))%Q
                        (children n') 0%Q)
  /\
  ((depth <= 0 \/ legal n = false) ->
   populate depth n = (set_score n 0%Q, 0%Q) /\
   children (set_score n 0%Q) = children n).
Proof.
  intros H0. split.
  - intros L Hd. rewrite populate_pos by exact Hd.
    pose proof (populate_nat_score (Z.to_nat (depth - 1)) n L) as HS.
    destruct (populate_nat _ n) as [n' s]. destruct HS as [Hs Hsc].
    split; [exact Hs|]. rewrite Hsc.
    destruct (is_populated n) eqn:P; [reflexivity|].
    rewrite (H0 (is_populated_false n P)). reflexivity.
  - intros [Hd|L]; split; try reflexivity; unfold populate.
    + replace (Z.to_nat depth) with O by lia. reflexivity.
    + destruct (Z.to_nat depth); simpl; [reflexivity|]. rewrite L. reflexivity.
Qed.

Lemma populate_score_sum_witness :
  let n := new_node (new_board 4 2 2) in
  (children n = [] -> score n = 0%Q) /\ legal n = true /\ 0 < 1 /\
  (let (n', s) := populate 1 n in
   s = score n' /\
   score n' = fold_left (fun a c => a + score c * up_ratio n * (-1))%Q
                        (children n') 0%Q).
Proof.
  split; [intros _; reflexivity|]. split; [reflexivity|]. split; [lia|].
  exact (proj1 (populate_score_sum (new_node (new_board 4 2 2)) 1
                  (fun _ => eq_refl)) eq_refl ltac:(lia)).
Defined.

Lemma nth_error_py_range w i :
  (i < Z.to_nat w)%nat -> nth_error (py_range 0 w) i = Some (Z.of_nat i).
Proof.
  intros H. unfold py_range. rewrite nth_error_map.
  rewrite nth_error_seq. replace (w - 0) with w by lia.
  destruct (Nat.ltb_spec i (Z.to_nat w)); [|lia]. simpl. reflexivity.
Qed.

Lemma length_py_range lo hi : length (py_range lo hi) = Z.to_nat (hi - lo).
Proof. unfold py_range. now rewrite length_map, length_seq. Qed.

Lemma repopulate_keeps d c :
  let c' := repopulate (populate_nat d) c in
  nboard c' = nboard c /\ final c' = final c /\ legal c' = legal c /\
  (final c = true -> c' = c).
Proof.
  unfold repopulate. destruct (final c) eqn:F; simpl.
  - repeat split; auto.
  - destruct (populate_nat_keeps d c) as (B & Fi & L & _).
    repeat split; auto; congruence.
Qed.

Lemma insert_piece_turn b pos :
  fst (insert_piece b pos) = true ->
  turn (snd (insert_piece b pos)) = if marker_eqb (turn b) p1 then p2 else p1.
Proof.
  unfold insert_piece. destruct (in_board b pos); simpl; [reflexivity|discriminate].
Qed.

(** Re-populating an expanded node keeps its children's boards and flags. *)
Lemma populate_keeps_child_set d m :
  children m <> [] ->
  let m' := fst (populate d m) in
  map nboard (children m') = map nboard (children m) /\
  map final (children m') = map final (children m) /\
  map legal (children m') = map legal (children m).
Proof.
  intros Hne. unfold populate.
  destruct (Z.to_nat d) as [|d'] eqn:D; [simpl; repeat split|].
  destruct (legal m) eqn:L; [|simpl; rewrite L; simpl; repeat split].
  rewrite (populate_nat_children d' m L).
  replace (is_populated m) with true
    by (unfold is_populated; destruct (children m); [congruence|reflexivity]).
  rewrite !map_map.
  repeat split; apply map_ext; intros c;
    destruct (repopulate_keeps d' c) as (B & F & Lg & _); assumption.
Qed.

(** ** Claim C4: expansion of a node *)

(** C4. [populate] at a positive depth on an unexpanded legal node creates
    [width] children; child [i] holds the board [insert_piece (copy b) i]
    of the node's board [b] and is: final, illegal, score 0 when the
    placement fails; final with score 1 when it wins; final with score 0
    when it fills the board; otherwise non-final and legal, its board's turn
    advanced past the copy's.  A later [populate] of an expanded node keeps
    the boards and flags of its children. *)
Theorem populate_expands (n : BoardTreeNode) (depth : Z) :
  wf_board (nboard n) -> legal n = true -> children n = [] -> 0 < depth ->
  let n' := fst (populate depth n) in
  let b := nboard n in
  length (children n') = Z.to_nat (width b) /\
  (forall i c, nth_error (children n') i = Some c ->
     let (ok, b1) := insert_piece (copy b) (Z.of_nat i) in
     nboard c = b1 /\
     (ok = false -> final c = true /\ legal c = false /\ score c = 0%Q) /\
     (ok = true -> check_win b1 (Z.of_nat i) = true ->
        final c = true /\ legal c = true /\ score c = 1%Q) /\
     (ok = true -> check_win b1 (Z.of_nat i) = false -> is_full b1 = true ->
        final c = true /\ legal c = true /\ score c = 0%Q) /\
     (ok = true -> check_win b1 (Z.of_nat i) = false -> is_full b1 = false ->
        final c = false /\ legal c = true /\
        turn b1 = if marker_eqb (turn (copy b)) p1 then p2 else p1)) /\
  (forall d, let n'' := fst (populate d n') in
     width b <= 0 \/
     (map nboard (children n'') = map nboard (children n') /\
      map final (children n'') = map final (children n') /\
      map legal (children n'') = map legal (children n'))).
Proof.
  intros _ L C0 Hd n' b.
  assert (HC : children n' = map (repopulate (populate_nat (Z.to_nat (depth - 1))))
                                 (make_children b)).
  { unfold n'. rewrite populate_pos by exact Hd.
    rewrite (populate_nat_children _ n L).
    replace (is_populated n) with false by (unfold is_populated; now rewrite C0).
    now rewrite C0. }
  split; [|split].
  - rewrite HC, length_map. unfold make_children.
    rewrite length_map, length_py_range. f_equal. lia.
  - intros i c Hi. rewrite HC in Hi. unfold make_children in Hi.
    rewrite map_map, nth_error_map in Hi.
    assert (Hlt : (i < Z.to_nat (width b))%nat).
    { destruct (Nat.ltb_spec i (Z.to_nat (width b))); [assumption|].
      rewrite (proj2 (nth_error_None _ _)) in Hi; [discriminate|].
      rewrite length_py_range. lia. }
    rewrite nth_error_py_range in Hi by exact Hlt. simpl in Hi.
    injection Hi as <-.
    destruct (repopulate_keeps (Z.to_nat (depth - 1)) (make_child b (Z.of_nat i)))
      as (B & F & Lg & Same).
    pose proof (insert_piece_turn (copy b) (Z.of_nat i)) as HT.
    revert B F Lg Same HT.
    set (c := repopulate _ _).
    unfold make_child; simpl.
    destruct (insert_piece (copy b) (Z.of_nat i)) as [ok b1]; simpl.
    intros B F Lg Same HT.
    destruct ok; simpl in *.
    + destruct (check_win b1 (Z.of_nat i)) eqn:W; simpl in *.
      * rewrite (Same eq_refl). repeat split; intros; try discriminate; auto.
      * destruct (is_full b1) eqn:Fu; simpl in *.
        -- rewrite (Same eq_refl). repeat split; intros; try discriminate; auto.
        -- repeat split; intros; try discriminate; auto.
    + rewrite (Same eq_refl). repeat split; intros; discriminate.
  - intros d. destruct (Z.leb_spec (width b) 0) as [Hw|Hw]; [left; exact Hw|].
    right. apply populate_keeps_child_set.
    rewrite HC. unfold make_children, py_range.
    destruct (Z.to_nat (width b - 0)) eqn:E; [lia|]. simpl. discriminate.
Qed.

Lemma populate_expands_witness :
  let n := new_node (new_board 4 2 2) in
  wf_board (nboard n) /\ legal n = true /\ children n = [] /\ 0 < 1 /\
  length (children (fst (populate 1 n))) = Z.to_nat (width (nboard n)).
Proof.
  assert (W : wf_board (nboard (new_node (new_board 4 2 2)))).
  { vm_compute. split; [reflexivity|]. repeat constructor; discriminate. }
  split; [exact W|]. split; [reflexivity|]. split; [reflexivity|].
  split; [lia|].
  exact (proj1 (populate_expands (new_node (new_board 4 2 2)) 1 W
                  eq_refl eq_refl ltac:(lia))).
Defined.

(** ** Claim C5: terminal nodes *)

(** Inside [populate], a final child is never populated again. *)
Lemma populate_skips_final_children d n :
  legal n = true -> is_populated n = true ->
  forall i c, nth_error (children n) i = Some c -> final c = true ->
  nth_error (children (fst (populate_nat (S d) n))) i = Some c.
Proof.
  intros L P i c Hi F. rewrite (populate_nat_children d n L), P.
  rewrite nth_error_map, Hi. simpl.
  now rewrite (proj2 (proj2 (proj2 (repopulate_keeps d c))) F).
Qed.

(** C5 (fails). The one move of the 1x1 board fills it: [populate] makes
    that child final (a draw) and legal, with no children.  Calling
    [populate] on that terminal node, as [game] does with
    [tree = tree.children[pos]; tree.populate()] after the move, expands
    it: it gets one (illegal) child. *)
Theorem populate_expands_terminal :
  let root := fst (populate 5 tiny_root) in
  let c := hd tiny_root (children root) in
    length (children root) = 1%nat /\ final c = true /\ legal c = true /\
    is_full (nboard c) = true /\ check_win (nboard c) 0 = false /\
    children c = [] /\
    length (children (fst (populate 5 c))) = 1%nat /\
    map legal (children (fst (populate 5 c))) = [false].
Proof.
  vm_compute. repeat split; reflexivity.
Qed.

(** ** Claim C6: move selection *)

Lemma best_loop_spec cs k bs bp :
  (best_loop cs k bs bp = bp /\
   forall j cj, nth_error cs j = Some cj -> legal cj = true ->
     match bs with None => False | Some s => (score cj <= s)%Q end) \/
  (exists i c, nth_error cs i = Some c /\ legal c = true /\
     best_loop cs k bs bp = Some (k + i)%nat /\
     match bs with None => True | Some s => (s < score c)%Q end /\
     forall j cj, nth_error cs j = Some cj -> legal cj = true ->
       (score cj <= score c)%Q /\ ((j < i)%nat -> (score cj < score c)%Q)).
Proof.
  revert k bs bp; induction cs as [|c cs IH]; intros k bs bp.
  - left. split; [reflexivity|]. intros [|j] cj H; discriminate.
  - simpl.
    destruct (legal c && match bs with
                         | None => true
                         | Some bs0 => negb (Qle_bool (score c) bs0)
                         end) eqn:E.
    + apply andb_true_iff in E as [Lc Hb].
      assert (Hbs : match bs with None => True | Some s => (s < score c)%Q end).
      { destruct bs as [s|]; [|exact I].
        apply negb_true_iff in Hb. apply Qnot_le_lt. intros Hle.
        apply Qle_bool_iff in Hle. congruence. }
      right.
      destruct (IH (S k) (Some (score c)) (Some k))
        as [[R A]|(i & c' & Hi & Lc' & R & Lt & A)].
      * exists 0%nat, c.
        split; [reflexivity|]. split; [exact Lc|].
        split; [rewrite R; f_equal; lia|]. split; [exact Hbs|].
        intros [|j] cj Hj Lj; simpl in Hj.
        -- injection Hj as <-. split; [apply Qle_refl|intros; lia].
        -- split; [exact (A j cj Hj Lj)|intros; lia].
      * exists (S i), c'.
        split; [exact Hi|]. split; [exact Lc'|].
        split; [rewrite R; f_equal; lia|].
        split; [destruct bs as [s|]; [apply Qlt_trans with (score c); assumption|exact I]|].
        intros [|j] cj Hj Lj; simpl in Hj.
        -- injection Hj as <-. split; [apply Qlt_le_weak; exact Lt|intros; exact Lt].
        -- destruct (A j cj Hj Lj) as [A1 A2].
           split; [exact A1|intros Hji; apply A2; lia].
    + assert (Hc : legal c = true ->
                   match bs with None => False | Some s => (score c <= s)%Q end).
      { intros Lc. rewrite Lc in E. simpl in E. destruct bs as [s|]; [|discriminate].
        apply negb_false_iff in E. apply Qle_bool_iff. exact E. }
      destruct (IH (S k) bs bp) as [[R A]|(i & c' & Hi & Lc' & R & Lt & A)].
      * left. split; [exact R|].
        intros [|j] cj Hj Lj; simpl in Hj; [injection Hj as <-; exact (Hc Lj)|].
        exact (A j cj Hj Lj).
      * right. exists (S i), c'.
        split; [exact Hi|]. split; [exact Lc'|].
        split; [rewrite R; f_equal; lia|]. split; [exact Lt|].
        intros [|j] cj Hj Lj; simpl in Hj.
        -- injection Hj as <-. specialize (Hc Lj).
           destruct bs as [s|]; [|contradiction].
           split.
           ++ apply Qle_trans with s; [exact Hc|]. apply Qlt_le_weak. exact Lt.
           ++ intros _. apply Qle_lt_trans with s; [exact Hc|exact Lt].
        -- destruct (A j cj Hj Lj) as [A1 A2].
           split; [exact A1|intros Hji; apply A2; lia].
Qed.

(** C6. [get_best_pos] is a total function that looks at legal children
    only: with no legal child (in particular with no children) it returns
    0; otherwise it returns the index of a legal child whose score no legal
    child exceeds, and every legal child before it scores strictly less
    (ties go to the first in column order). *)
Theorem get_best_pos_spec (n : BoardTreeNode) :
  let p := get_best_pos n in
  ((forall c, In c (children n) -> legal c = false) -> p = 0%nat) /\
  ((exists c, In c (children n) /\ legal c = true) ->
   exists cb, nth_error (children n) p = Some cb /\ legal cb = true /\
     forall j cj, nth_error (children n) j = Some cj -> legal cj = true ->
       (score cj <= score cb)%Q /\ ((j < p)%nat -> (score cj < score cb)%Q)).
Proof.
  unfold get_best_pos.
  destruct (best_loop_spec (children n) 0 None None)
    as [[R A]|(i & c & Hi & Lc & R & _ & A)]; rewrite R; split.
  - reflexivity.
  - intros (c & Hin & Lc). apply In_nth_error in Hin as [j Hj].
    destruct (A j c Hj Lc).
  - intros Hno. apply nth_error_In in Hi. rewrite (Hno c Hi) in Lc. discriminate.
  - intros _. exists c. simpl. auto.
Qed.

Module HeapFacts.
Import Heap.

Lemma read_app st ext l : (l < length st)%nat -> read (st ++ ext) l = read st l.
Proof. intros H. unfold read. apply app_nth1. exact H. Qed.

Lemma read_list_set st l l' v :
  l <> l' -> read (list_set st l v) l' = read st l'.
Proof.
  unfold read. revert l l'; induction st as [|h t IH]; intros [|l] [|l'] H;
    simpl; auto; congruence || apply IH; congruence.
Qed.

Lemma alloc_empties_ext st k :
  exists ext, fst (alloc_empties st k) = st ++ ext.
Proof.
  revert st; induction k as [|k IH]; intros st; simpl.
  - exists []. now rewrite app_nil_r.
  - destruct (IH (st ++ [[]])) as [ext E].
    destruct (alloc_empties (st ++ [[]]) k) as [st2 ls]; simpl in *.
    exists ([[]] ++ ext). rewrite E, app_assoc. reflexivity.
Qed.

(** [copy_cols] extends the store with fresh lists holding the contents. *)
Lemma copy_cols_spec st ls :
  Forall (fun l => (l < length st)%nat) ls ->
  let (st2, ls') := copy_cols st ls in
  (exists ext, st2 = st ++ ext) /\
  Forall (fun l => length st <= l < length st2)%nat ls' /\
  map (read st2) ls' = map (read st) ls.
Proof.
  revert st; induction ls as [|l ls IH]; intros st Hv; simpl.
  - split; [exists []; now rewrite app_nil_r|]. split; constructor.
  - inversion Hv as [|? ? Hl Hv']; subst.
    assert (Hv1 : Forall (fun l0 => (l0 < length (st ++ [map (fun v => v) (read st l)]))%nat) ls).
    { eapply Forall_impl; [|exact Hv']. intros x Hx. cbv beta in *. rewrite length_app. simpl. lia. }
    specialize (IH _ Hv1).
    destruct (copy_cols _ ls) as [st2 ls''] eqn:E.
    destruct IH as [[ext Hext] [Hf Hm]].
    rewrite length_app in Hf. simpl in Hf.
    split; [|split].
    + exists ([map (fun v => v) (read st l)] ++ ext). rewrite Hext, app_assoc. reflexivity.
    + constructor.
      * rewrite Hext, !length_app. simpl. lia.
      * eapply Forall_impl; [|exact Hf]. simpl. intros x Hx. lia.
    + simpl. rewrite Hm. f_equal.
      * rewrite Hext, read_app by (rewrite length_app; simpl; lia).
        unfold read at 1. rewrite app_nth2 by lia.
        replace (length st - length st)%nat with O by lia. simpl. apply map_id.
      * apply map_ext_in. intros x Hx.
        rewrite Forall_forall in Hv'. apply read_app. exact (Hv' x Hx).
Qed.

Lemma copy_cols_length st ls : length (snd (copy_cols st ls)) = length ls.
Proof.
  revert st; induction ls as [|l ls IH]; intros st; simpl; [reflexivity|].
  specialize (IH (st ++ [map (fun v => v) (read st l)])).
  destruct (copy_cols _ ls); simpl in *. now rewrite IH.
Qed.

Lemma valid_ext st ext hb : valid st hb -> valid (st ++ ext) hb.
Proof.
  unfold valid. intros H. eapply Forall_impl; [|exact H].
  intros x Hx. cbv beta in *. rewrite length_app. lia.
Qed.

Lemma view_ext st ext hb : valid st hb -> view (st ++ ext) hb = view st hb.
Proof.
  unfold valid, view. intros H. apply map_ext_in. intros x Hx.
  rewrite Forall_forall in H. apply read_app. exact (H x Hx).
Qed.

(** [copy] allocates a fresh list per column, beyond every list that
    existed before, with the same contents. *)
Lemma hcopy_spec st hb :
  valid st hb ->
  let (st2, hb2) := hcopy st hb in
  (exists ext, st2 = st ++ ext) /\
  Forall (fun l => length st <= l < length st2)%nat (hcols hb2) /\
  length (hcols hb2) = length (hcols hb) /\
  view st2 hb2 = view st hb /\
  hhistory hb2 = hhistory hb /\ hwidth hb2 = hwidth hb /\ hturn hb2 = p1.
Proof.
  intros Hv. unfold hcopy, hnew_board.
  destruct (alloc_empties_ext st (Z.to_nat (hwidth hb))) as [ext1 E1].
  destruct (alloc_empties st (Z.to_nat (hwidth hb))) as [st1 ls0]; simpl in E1. subst st1.
  pose proof (valid_ext _ ext1 _ Hv) as Hv1.
  pose proof (copy_cols_spec (st ++ ext1) (hcols hb) Hv1) as HC.
  pose proof (copy_cols_length (st ++ ext1) (hcols hb)) as HL.
  destruct (copy_cols _ _) as [st2 ls] eqn:E. simpl in HL.
  destruct HC as [[ext2 ->] [Hf Hm]].
  split; [exists (ext1 ++ ext2); now rewrite app_assoc|].
  split; [|split; [exact HL|split; [|repeat split]]].
  - eapply Forall_impl; [|exact Hf]. intros x Hx. cbv beta in *.
    rewrite length_app in Hx. lia.
  - unfold view; simpl. rewrite Hm. apply view_ext. exact Hv.
Qed.

(** [insert_piece] writes at most the one list object [self.board[pos]]. *)
Lemma hinsert_frame st hb pos :
  Z.of_nat (length (hcols hb)) = hwidth hb ->
  let '(st', _, _) := hinsert_piece st hb pos in
  st' = st \/
  (exists l, In l (hcols hb) /\ forall l', l' <> l -> read st' l' = read st l').
Proof.
  intros Hw. unfold hinsert_piece.
  destruct (hin_board st hb pos) eqn:Hin; [|left; reflexivity].
  right. exists (col_loc hb pos). split.
  - unfold hin_board in Hin.
    apply andb_true_iff in Hin as [Hin _]. apply andb_true_iff in Hin as [H0 H1].
    apply Z.leb_le in H0. apply Z.ltb_lt in H1.
    unfold col_loc. rewrite py_index_nonneg by lia.
    destruct (nth_error (hcols hb) (Z.to_nat pos)) as [l|] eqn:E.
    + apply nth_error_In with (Z.to_nat pos). exact E.
    + apply nth_error_None in E. lia.
  - intros l' Hne. apply read_list_set. congruence.
Qed.

Lemma view_frame st st' hb l :
  (forall l', l' <> l -> read st' l' = read st l') -> ~ In l (hcols hb) ->
  view st' hb = view st hb.
Proof.
  intros Hr Hn. unfold view. apply map_ext_in. intros x Hx.
  apply Hr. intros ->. contradiction.
Qed.

(** The heap [copy] is the value [copy] of [Board]. *)
Lemma hcopy_refines st hb :
  valid st hb ->
  let (st2, hb2) := hcopy st hb in to_board st2 hb2 = copy (to_board st hb).
Proof.
  intros Hv. pose proof (hcopy_spec st hb Hv) as HS.
  unfold hcopy, hnew_board in *.
  destruct (alloc_empties st _) as [st1 ls0].
  destruct (copy_cols st1 (hcols hb)) as [st2 ls].
  destruct HS as (_ & _ & _ & Hview & _).
  unfold to_board, copy, copy_board_list; simpl in *. rewrite Hview.
  f_equal. rewrite map_ext with (g := fun c => c) by apply map_id.
  now rewrite map_id.
Qed.

(** ** Claim C7: [copy] shares no column storage *)

(** C7. For a board whose column lists are allocated and one per column,
    [copy] yields a board whose column lists are all new objects, none of
    them a column list of the original, holding the same columns and
    history.  A placement on the copy leaves the columns (contents and piece
    counts) the original sees unchanged, and a placement on the original
    leaves the copy's unchanged; the history and turn of each are fields of
    its own board object. *)
Theorem copy_independent (st : store) (hb : HBoard) :
  valid st hb -> Z.of_nat (length (hcols hb)) = hwidth hb ->
  let (st1, hb1) := hcopy st hb in
  (forall l, In l (hcols hb1) -> ~ In l (hcols hb)) /\
  view st1 hb1 = view st hb /\ hhistory hb1 = hhistory hb /\
  view st1 hb = view st hb /\
  (forall pos, let '(st2, _, _) := hinsert_piece st1 hb1 pos in
               view st2 hb = view st hb) /\
  (forall pos, let '(st2, _, _) := hinsert_piece st1 hb pos in
               view st2 hb1 = view st1 hb1).
Proof.
  intros Hv Hw.
  pose proof (hcopy_spec st hb Hv) as HS.
  destruct (hcopy st hb) as [st1 hb1].
  destruct HS as [[ext ->] [Hf [HL [Hview [Hh [Hwd _]]]]]].
  assert (Hdisj : forall l, In l (hcols hb1) -> ~ In l (hcols hb)).
  { intros l H1 H2. pose proof Hv as Hv'. unfold valid in Hv'.
    rewrite Forall_forall in Hf, Hv'.
    specialize (Hf l H1). specialize (Hv' l H2). simpl in *. lia. }
  assert (Hold : view (st ++ ext) hb = view st hb) by (apply view_ext; exact Hv).
  split; [exact Hdisj|]. split; [exact Hview|]. split; [exact Hh|].
  split; [exact Hold|]. split.
  - intros pos.
    assert (Hw1 : Z.of_nat (length (hcols hb1)) = hwidth hb1) by (rewrite HL, Hwd; exact Hw).
    pose proof (hinsert_frame (st ++ ext) hb1 pos Hw1) as HF.
    destruct (hinsert_piece (st ++ ext) hb1 pos) as [[st2 ok] hb2].
    destruct HF as [->|(l & Hl & Hr)]; [exact Hold|].
    rewrite <- Hold. apply (view_frame _ _ _ l Hr). apply Hdisj. exact Hl.
  - intros pos.
    pose proof (hinsert_frame (st ++ ext) hb pos Hw) as HF.
    destruct (hinsert_piece (st ++ ext) hb pos) as [[st2 ok] hb2].
    destruct HF as [->|(l & Hl & Hr)]; [reflexivity|].
    apply (view_frame _ _ _ l Hr). intros H1. exact (Hdisj l H1 Hl).
Qed.

Lemma copy_independent_witness :
  valid (fst sample_board) (snd sample_board) /\
  Z.of_nat (length (hcols (snd sample_board))) = hwidth (snd sample_board) /\
  (let (st1, hb1) := hcopy (fst sample_board) (snd sample_board) in
   view st1 hb1 = view (fst sample_board) (snd sample_board)).
Proof.
  assert (Hv : valid (fst sample_board) (snd sample_board)).
  { vm_compute. repeat constructor. }
  assert (Hw : Z.of_nat (length (hcols (snd sample_board))) = hwidth (snd sample_board)).
  { vm_compute. reflexivity. }
  split; [exact Hv|]. split; [exact Hw|].
  pose proof (copy_independent (fst sample_board) (snd sample_board) Hv Hw) as H.
  destruct (hcopy (fst sample_board) (snd sample_board)).
  exact (proj1 (proj2 H)).
Defined.

End HeapFacts.

(** * Further properties of the board *)

Lemma Forall_list_set {A} (P : A -> Prop) xs i v :
  Forall P xs -> P v -> Forall P (list_set xs i v).
Proof.
  revert i; induction xs as [|h t IH]; intros [|i] H Hv; simpl; auto;
    inversion H; subst; constructor; auto.
Qed.

Lemma in_board_true b pos :
  in_board b pos = true ->
  0 <= pos < width b /\ Z.of_nat (length (column b pos)) < height b.
Proof.
  unfold in_board. intros H.
  apply andb_true_iff in H as [H H2]. apply andb_true_iff in H as [H0 H1].
  apply Z.leb_le in H0. apply Z.ltb_lt in H1. apply Z.ltb_lt in H2. lia.
Qed.

(** After a successful [insert_piece], the columns of the board. *)
Lemma insert_piece_columns b pos b' :
  wf_board b -> insert_piece b pos = (true, b') ->
  0 <= pos < width b /\ Z.of_nat (length (column b pos)) < height b /\
  board b' = list_set (board b) (Z.to_nat pos) (column b pos ++ [turn b]) /\
  (forall x, 0 <= x < width b ->
     column b' x = if x =? pos then column b pos ++ [turn b] else column b x) /\
  history b' = append (history b) (py_str pos) /\
  turn b' = (if marker_eqb (turn b) p1 then p2 else p1) /\
  width b' = width b /\ height b' = height b /\ win_length b' = win_length b.
Proof.
  intros [Hlen _] H. unfold insert_piece in H.
  destruct (in_board b pos) eqn:Hin; [|discriminate].
  injection H as <-. apply in_board_true in Hin as [Hp Hh].
  simpl. repeat split; try lia; try reflexivity.
  intros x Hx. rewrite !column_in_range by lia. simpl.
  rewrite nth_error_list_set by lia.
  destruct (Z.eqb_spec x pos) as [->|Hne].
  - rewrite Nat.eqb_refl. reflexivity.
  - replace (Nat.eqb (Z.to_nat pos) (Z.to_nat x)) with false; [reflexivity|].
    symmetry. apply Nat.eqb_neq. lia.
Qed.

(** The successful and the refused [insert_piece] alike. *)
Lemma insert_piece_wf (b : Board) (pos : Z) :
  wf_board b -> wf_board (snd (insert_piece b pos)).
Proof.
  intros Hwf.
  destruct (insert_piece b pos) as [ok b'] eqn:E. destruct ok.
  - destruct (insert_piece_columns b pos b' Hwf E) as (Hp & Hh & Hb & _ & _ & _ & Hw & Hht & _).
    destruct Hwf as [Hlen HF]. split; simpl.
    + rewrite Hb, length_list_set, Hw. exact Hlen.
    + rewrite Hb, Hht. apply Forall_list_set; [exact HF|].
      rewrite length_app. simpl. lia.
  - unfold insert_piece in E. destruct (in_board b pos); [discriminate|].
    injection E as <-. exact Hwf.
Qed.

(** [insert_piece] keeps a board well formed: one column list per column,
    none holding more than [height] pieces. *)
Theorem insert_piece_keeps_wf (b : Board) (pos : Z) :
  wf_board b -> wf_board (snd (insert_piece b pos)).
Proof. exact (insert_piece_wf b pos). Qed.

Lemma insert_piece_keeps_wf_witness :
  wf_board (new_board 4 7 6) /\ wf_board (snd (insert_piece (new_board 4 7 6) 2)).
Proof.
  assert (W : wf_board (new_board 4 7 6)).
  { vm_compute. split; [reflexivity|]. repeat constructor; discriminate. }
  split; [exact W|]. exact (insert_piece_keeps_wf _ 2 W).
Defined.

(** After a successful [insert_piece b pos], the column holds one more
    piece and [get_top_piece pos] is the marker of the player who moved. *)
Theorem insert_piece_top (b : Board) (pos : Z) (b' : Board) :
  wf_board b -> insert_piece b pos = (true, b') ->
  get_column_height b' pos = get_column_height b pos + 1 /\
  get_top_piece b' pos = Some (turn b).
Proof.
  intros Hwf E.
  pose proof (insert_piece_wf b pos Hwf) as Hwf'. rewrite E in Hwf'.
  destruct (insert_piece_columns b pos b' Hwf E) as (Hp & _ & _ & Hc & _ & _ & Hw & _).
  specialize (Hc pos Hp). rewrite Z.eqb_refl in Hc.
  unfold get_column_height. rewrite Hc, length_app. simpl. split; [lia|].
  unfold get_top_piece, get_piece_at, get_column_height.
  destruct Hwf' as [Hlen' _].
  unfold column in Hc |- *.
  destruct (py_index (board b') pos) as [col|] eqn:Ei.
  - rewrite Hc. rewrite py_index_nonneg by (rewrite length_app; simpl; lia).
    rewrite length_app. simpl.
    replace (Z.to_nat (Z.of_nat (length (match py_index (board b) pos with
                                          | Some c => c | None => [] end) + 1) - 1))
      with (length (match py_index (board b) pos with Some c => c | None => [] end))
      by lia.
    rewrite nth_error_app2, Nat.sub_diag by lia. reflexivity.
  - rewrite py_index_nonneg in Ei by lia. apply nth_error_None in Ei. simpl in Hlen'. lia.
Qed.

Lemma insert_piece_top_witness :
  wf_board (new_board 4 7 6) /\ insert_piece (new_board 4 7 6) 5 = (true, snd (insert_piece (new_board 4 7 6) 5)) /\
  get_top_piece (snd (insert_piece (new_board 4 7 6) 5)) 5 = Some p1.
Proof.
  assert (W : wf_board (new_board 4 7 6)).
  { vm_compute. split; [reflexivity|]. repeat constructor; discriminate. }
  assert (E : insert_piece (new_board 4 7 6) 5 = (true, snd (insert_piece (new_board 4 7 6) 5)))
    by reflexivity.
  split; [exact W|]. split; [exact E|].
  exact (proj2 (insert_piece_top _ 5 _ W E)).
Defined.

(** [game] announces the winner as the turn after [change_turn]: after a
    successful [insert_piece], that is the player who has just moved. *)
Theorem change_turn_restores_mover (b : Board) (pos : Z) :
  fst (insert_piece b pos) = true ->
  turn (change_turn (snd (insert_piece b pos))) = turn b.
Proof.
  unfold insert_piece. destruct (in_board b pos); simpl; [|discriminate].
  intros _. destruct (turn b); reflexivity.
Qed.

Lemma change_turn_restores_mover_witness :
  fst (insert_piece (new_board 4 7 6) 0) = true /\
  turn (change_turn (snd (insert_piece (new_board 4 7 6) 0))) = p1.
Proof.
  split; [reflexivity|].
  exact (change_turn_restores_mover (new_board 4 7 6) 0 eq_refl).
Defined.

Lemma is_full_in_board (b : Board) :
  wf_board b -> (is_full b = true <-> forall pos, in_board b pos = false).
Proof.
  intros [Hlen HF]. unfold is_full. rewrite forallb_forall. split.
  - intros H pos. destruct (in_board b pos) eqn:Hin; [|reflexivity].
    apply in_board_true in Hin as [Hp Hh].
    rewrite column_in_range in Hh by lia.
    destruct (nth_error (board b) (Z.to_nat pos)) as [c|] eqn:E.
    + apply nth_error_In in E. specialize (H c E). apply Z.eqb_eq in H. lia.
    + apply nth_error_None in E. lia.
  - intros H c Hc. apply In_nth_error in Hc as [i Hi].
    assert (Hil : (i < length (board b))%nat) by (apply nth_error_Some; congruence).
    specialize (H (Z.of_nat i)). unfold in_board in H.
    rewrite column_in_range in H by lia. rewrite Nat2Z.id, Hi in H.
    rewrite Forall_forall in HF. specialize (HF c (nth_error_In _ _ Hi)).
    apply Z.eqb_eq.
    destruct (Z.leb_spec 0 (Z.of_nat i)); [|lia].
    destruct (Z.ltb_spec (Z.of_nat i) (width b)); [|lia].
    destruct (Z.ltb_spec (Z.of_nat (length c)) (height b)); [discriminate|]. lia.
Qed.

(** On a well-formed board, [is_full] holds exactly when [in_board] (and
    so [insert_piece]) refuses every column. *)
Theorem is_full_iff_no_move (b : Board) :
  wf_board b -> (is_full b = true <-> forall pos, in_board b pos = false).
Proof. exact (is_full_in_board b). Qed.

Lemma is_full_iff_no_move_witness :
  wf_board (snd (play (new_board 4 2 1) [0; 1])) /\
  (is_full (snd (play (new_board 4 2 1) [0; 1])) = true ->
   forall pos, in_board (snd (play (new_board 4 2 1) [0; 1])) pos = false).
Proof.
  assert (W : wf_board (snd (play (new_board 4 2 1) [0; 1]))).
  { vm_compute. split; [reflexivity|]. repeat constructor; discriminate. }
  split; [exact W|].
  exact (proj1 (is_full_iff_no_move _ W)).
Defined.

(** [check_win] on an empty column is [false] (for [win_length >= 1]):
    every direction needs the top piece, and there is none. *)
Theorem check_win_empty_column (b : Board) (pos : Z) :
  1 <= win_length b -> column b pos = [] -> check_win b pos = false.
Proof.
  intros Hw Hc. unfold check_win, check_win_vertical, check_win_horizontal,
    check_win_diagonals, get_column_height.
  rewrite Hc. simpl.
  destruct (Z.ltb_spec 0 (win_length b)); [|lia]. reflexivity.
Qed.

Lemma check_win_empty_column_witness :
  1 <= win_length (new_board 4 7 6) /\ column (new_board 4 7 6) 3 = [] /\
  check_win (new_board 4 7 6) 3 = false.
Proof.
  split; [unfold new_board; simpl; lia|]. split; [reflexivity|].
  exact (check_win_empty_column (new_board 4 7 6) 3 ltac:(unfold new_board; simpl; lia) eq_refl).
Defined.

Lemma piece_count_list_set (cs : list (list marker)) i c :
  (i < length cs)%nat ->
  (fold_right (fun c acc => (length c + acc)%nat) 0%nat (list_set cs i c) +
   match nth_error cs i with Some c0 => length c0 | None => 0 end =
   fold_right (fun c acc => (length c + acc)%nat) 0%nat cs + length c)%nat.
Proof.
  revert i; induction cs as [|h t IH]; intros [|i] Hi; simpl in *; try lia.
  specialize (IH i ltac:(lia)). lia.
Qed.

(** A sequence of placements that all succeed, from a well-formed board:
    the board stays well formed, holds one more piece per move, records
    [str(pos)] of each move in order, and the turn has flipped once per
    move. *)
Theorem play_all_ok (b : Board) (moves : list Z) (b' : Board) :
  wf_board b -> play b moves = (true, b') ->
  wf_board b' /\
  piece_count b' = (piece_count b + length moves)%nat /\
  history b' = fold_left append (map py_str moves) (history b) /\
  turn b' = (if Nat.even (length moves) then turn b
             else if marker_eqb (turn b) p1 then p2 else p1).
Proof.
  revert b. induction moves as [|m ms IH]; intros b Hwf H.
  - simpl in H. injection H as <-. simpl. rewrite Nat.add_0_r.
    repeat split; try apply Hwf; reflexivity.
  - simpl in H. destruct (insert_piece b m) as [ok b1] eqn:E1.
    destruct (play b1 ms) as [ok' b2] eqn:E2.
    destruct ok; [|discriminate]. destruct ok'; [|discriminate].
    injection H as <-.
    pose proof (insert_piece_wf b m Hwf) as Hwf1. rewrite E1 in Hwf1.
    destruct (IH b1 Hwf1 E2) as (W & Pc & Hi & Ht).
    destruct (insert_piece_columns b m b1 Hwf E1)
      as (Hp & _ & Hb & _ & Hh & Htu & _).
    split; [exact W|]. split; [|split].
    + rewrite Pc. unfold piece_count. rewrite Hb.
      destruct Hwf as [Hlen _].
      pose proof (piece_count_list_set (board b) (Z.to_nat m)
                    (column b m ++ [turn b]) ltac:(lia)) as HL.
      rewrite column_in_range in HL |- * by lia.
      rewrite length_app in HL. simpl in HL |- *.
      destruct (nth_error (board b) (Z.to_nat m)) as [c0|] eqn:En.
      * lia.
      * apply nth_error_None in En. lia.
    + simpl. rewrite Hi, Hh. reflexivity.
    + rewrite Ht, Htu. change (length (m :: ms)) with (S (length ms)).
      rewrite Nat.even_succ, <- Nat.negb_even.
      destruct (Nat.even (length ms)); simpl; destruct (turn b); reflexivity.
Qed.

Lemma play_all_ok_witness :
  wf_board (new_board 4 7 6) /\
  play (new_board 4 7 6) [3; 3; 4] = (true, snd (play (new_board 4 7 6) [3; 3; 4])) /\
  piece_count (snd (play (new_board 4 7 6) [3; 3; 4])) = 3%nat.
Proof.
  assert (W : wf_board (new_board 4 7 6)).
  { vm_compute. split; [reflexivity|]. repeat constructor; discriminate. }
  split; [exact W|]. split; [reflexivity|].
  exact (proj1 (proj2 (play_all_ok _ [3; 3; 4] _ W eq_refl))).
Defined.

(** * Further properties of the search tree *)

Lemma populate_fresh_children n depth :
  legal n = true -> children n = [] -> 0 < depth ->
  children (fst (populate depth n)) =
  map (repopulate (populate_nat (Z.to_nat (depth - 1)))) (make_children (nboard n)).
Proof.
  intros L C0 Hd. rewrite populate_pos by exact Hd.
  rewrite (populate_nat_children _ n L).
  replace (is_populated n) with false by (unfold is_populated; now rewrite C0).
  now rewrite C0.
Qed.

Lemma copy_wf b : wf_board b -> wf_board (copy b).
Proof.
  intros [Hlen HF]. unfold wf_board, copy, copy_board_list. simpl. split.
  - rewrite length_map. exact Hlen.
  - rewrite Forall_map. eapply Forall_impl; [|exact HF].
    intros c Hc. simpl. rewrite map_id. exact Hc.
Qed.

Lemma column_copy b x : column (copy b) x = column b x.
Proof.
  unfold column, copy, copy_board_list. simpl.
  assert (Hm : map (fun col : list marker => map (fun v => v) col) (board b) = board b).
  { induction (board b) as [|c cs IH]; simpl; [reflexivity|]. now rewrite map_id, IH. }
  now rewrite Hm.
Qed.



(** * The random bot *)

Lemma remove_first_length c l :
  In c l -> length (remove_first c l) = pred (length l).
Proof.
  induction l as [|y ys IH]; simpl; [contradiction|].
  intros [->|H]; [now rewrite Z.eqb_refl|].
  destruct (Z.eqb_spec c y); [reflexivity|]. simpl. rewrite IH by exact H.
  destruct ys; [contradiction|reflexivity].
Qed.

Lemma remove_first_In x c l : In x (remove_first c l) -> In x l.
Proof.
  induction l as [|y ys IH]; simpl; [auto|].
  destruct (Z.eqb c y); simpl; [auto|]. intros [->|H]; auto.
Qed.

Lemma remove_first_keep x c l : In x l -> x <> c -> In x (remove_first c l).
Proof.
  induction l as [|y ys IH]; simpl; [auto|].
  intros [->|H] Hne.
  - destruct (Z.eqb_spec c x); [congruence|]. left; reflexivity.
  - destruct (Z.eqb c y); [exact H|]. right. auto.
Qed.

Lemma random_choice_In l r : l <> [] -> In (random_choice l r) l.
Proof.
  intros Hne. unfold random_choice. apply nth_In.
  apply Nat.mod_upper_bound. destruct l; [congruence|]. simpl. lia.
Qed.

Lemma In_py_range x lo hi : In x (py_range lo hi) <-> lo <= x < hi.
Proof.
  unfold py_range. rewrite in_map_iff. split.
  - intros (k & <- & Hk). apply in_seq in Hk. lia.
  - intros H. exists (Z.to_nat (x - lo)). split; [lia|]. apply in_seq. lia.
Qed.

Lemma bot_loop_spec b rnd k fuel legal choice :
  In choice legal -> (length legal <= fuel)%nat ->
  (forall x, In x legal -> 0 <= x < width b) ->
  (forall x, 0 <= x < width b -> get_column_height b x <> height b -> In x legal) ->
  let r := bot_loop b rnd k fuel legal choice in
  0 <= r < width b /\
  (get_column_height b r <> height b \/
   forall x, 0 <= x < width b -> get_column_height b x = height b).
Proof.
  revert k legal choice; induction fuel as [|f IH]; intros k legal choice Hc Hf Hr Hn.
  - destruct legal; [contradiction|simpl in Hf; lia].
  - simpl. pose proof (Hr choice Hc) as Hcr.
    destruct (Z.eqb_spec (get_column_height b choice) (height b)) as [Hfull|Hnf];
      [|split; [exact Hcr|left; exact Hnf]].
    assert (Hn' : forall x, 0 <= x < width b -> get_column_height b x <> height b ->
                  In x (remove_first choice legal)).
    { intros x Hx Hxn. apply remove_first_keep; [exact (Hn x Hx Hxn)|].
      intros ->. contradiction. }
    destruct (remove_first choice legal) as [|y ys] eqn:E.
    + split; [exact Hcr|]. right. intros x Hx.
      destruct (Z.eq_dec (get_column_height b x) (height b)) as [e|ne]; [exact e|].
      destruct (Hn' x Hx ne).
    + rewrite <- E. apply IH.
      * apply random_choice_In. rewrite E. discriminate.
      * rewrite remove_first_length by exact Hc. lia.
      * intros x Hx. apply Hr. apply (remove_first_In x choice). exact Hx.
      * rewrite E. exact Hn'.
Qed.

(** [get_bot_response] on a well-formed board with at least one column,
    whatever the random draws: it answers [str(c)] for a column [c] of the
    board, and [c] accepts a piece unless every column is full. *)
Theorem get_bot_response_spec (b : Board) (rnd : nat -> nat) :
  wf_board b -> 1 <= width b ->
  exists c, get_bot_response b rnd = py_str c /\ 0 <= c < width b /\
    (get_column_height b c < height b \/
     forall x, 0 <= x < width b -> get_column_height b x = height b).
Proof.
  intros [Hlen HF] Hw. unfold get_bot_response.
  set (legal := py_range 0 (width b)).
  assert (Hcol : forall x, 0 <= x < width b -> get_column_height b x <= height b).
  { intros x Hx. unfold get_column_height. rewrite column_in_range by lia.
    destruct (nth_error (board b) (Z.to_nat x)) as [c|] eqn:E.
    2:{ apply nth_error_None in E. lia. }
    rewrite Forall_forall in HF. exact (HF c (nth_error_In _ _ E)). }
  destruct (bot_loop_spec b rnd 1 (length legal) legal
              (random_choice legal (rnd 0%nat))) as [Hr Hc].
  - apply random_choice_In. unfold legal, py_range.
    destruct (Z.to_nat (width b - 0)) eqn:E; [lia|]. discriminate.
  - lia.
  - intros x Hx. apply In_py_range in Hx. exact Hx.
  - intros x Hx _. apply In_py_range. exact Hx.
  - eexists. split; [reflexivity|]. split; [exact Hr|].
    destruct Hc as [Hc|Hc]; [left|right; exact Hc].
    pose proof (Hcol _ Hr). lia.
Qed.

Lemma get_bot_response_spec_witness :
  wf_board (snd (play (new_board 4 2 1) [0])) /\
  1 <= width (snd (play (new_board 4 2 1) [0])) /\
  get_bot_response (snd (play (new_board 4 2 1) [0])) (fun _ => 0%nat) = "1"%string.
Proof.
  assert (W : wf_board (snd (play (new_board 4 2 1) [0]))).
  { vm_compute. split; [reflexivity|]. repeat constructor; discriminate. }
  assert (Hw : 1 <= width (snd (play (new_board 4 2 1) [0]))).
  { vm_compute. discriminate. }
  split; [exact W|]. split; [exact Hw|].
  destruct (get_bot_response_spec _ (fun _ => 0%nat) W Hw) as (c & _ & _ & _).
  vm_compute. reflexivity.
Defined.

(** * [check_win] misses no run *)

Lemma py_range_nil lo hi : hi <= lo -> py_range lo hi = [].
Proof. intros H. unfold py_range. now replace (Z.to_nat (hi - lo)) with 0%nat by lia. Qed.

Lemma py_range_cons lo hi : lo < hi -> py_range lo hi = lo :: py_range (lo + 1) hi.
Proof.
  intros H. unfold py_range.
  replace (Z.to_nat (hi - lo)) with (S (Z.to_nat (hi - (lo + 1)))) by lia.
  simpl. f_equal; [lia|]. rewrite <- seq_shift, map_map.
  apply map_ext. intros k. lia.
Qed.

Lemma py_range_split lo mid hi :
  lo <= mid <= hi -> py_range lo hi = py_range lo mid ++ py_range mid hi.
Proof.
  remember (Z.to_nat (mid - lo)) as n eqn:En. revert lo En.
  induction n as [|n IH]; intros lo En H.
  - rewrite (py_range_nil lo mid) by lia. simpl. f_equal. lia.
  - rewrite (py_range_cons lo hi) by lia. rewrite (py_range_cons lo mid) by lia.
    simpl. f_equal. apply IH; lia.
Qed.

Lemma horizontal_scan_prefix b y m pre rest c :
  0 <= c < win_length b ->
  (forall c', 0 <= c' < win_length b -> horizontal_scan b y m rest c' = true) ->
  horizontal_scan b y m (pre ++ rest) c = true.
Proof.
  revert c; induction pre as [|x pre IH]; intros c Hc Hr; simpl; [auto|].
  destruct (opt_marker_eqb (get_piece_at b x y) m);
    [destruct (Z.eqb_spec (c + 1) (win_length b))
    |destruct (Z.eqb_spec 0 (win_length b))]; auto; apply IH; auto; lia.
Qed.

Lemma horizontal_scan_segment b y m seg post c :
  0 <= c < win_length b -> win_length b <= c + Z.of_nat (length seg) ->
  Forall (fun x => opt_marker_eqb (get_piece_at b x y) m = true) seg ->
  horizontal_scan b y m (seg ++ post) c = true.
Proof.
  revert c; induction seg as [|x seg IH]; intros c Hc Hl HF; simpl in *; [lia|].
  inversion HF as [|? ? Hx HF']; subst. rewrite Hx.
  destruct (Z.eqb_spec (c + 1) (win_length b)); [reflexivity|].
  apply IH; auto; lia.
Qed.

Lemma diagonal_scan_prefix b pos y m pre rest td dt :
  0 <= td < win_length b -> 0 <= dt < win_length b ->
  (forall td' dt', 0 <= td' < win_length b -> 0 <= dt' < win_length b ->
     diagonal_scan b pos y m rest td' dt' = true) ->
  diagonal_scan b pos y m (pre ++ rest) td dt = true.
Proof.
  revert td dt; induction pre as [|x pre IH]; intros td dt Htd Hdt Hr; simpl; [auto|].
  destruct (opt_marker_eqb (get_piece_at b x (y + (pos - x))) m);
  destruct (opt_marker_eqb (get_piece_at b x (y + (x - pos))) m);
  [destruct (Z.eqb_spec (dt + 1) (win_length b)); destruct (Z.eqb_spec (td + 1) (win_length b))
  |destruct (Z.eqb_spec 0 (win_length b)); destruct (Z.eqb_spec (td + 1) (win_length b))
  |destruct (Z.eqb_spec (dt + 1) (win_length b)); destruct (Z.eqb_spec 0 (win_length b))
  |destruct (Z.eqb_spec 0 (win_length b)); destruct (Z.eqb_spec 0 (win_length b))];
  simpl; auto; apply IH; auto; lia.
Qed.

Lemma diagonal_scan_segment_dt b pos y m seg post td dt :
  0 <= td < win_length b -> 0 <= dt < win_length b ->
  win_length b <= dt + Z.of_nat (length seg) ->
  Forall (fun x => opt_marker_eqb (get_piece_at b x (y + (x - pos))) m = true) seg ->
  diagonal_scan b pos y m (seg ++ post) td dt = true.
Proof.
  revert td dt; induction seg as [|x seg IH]; intros td dt Htd Hdt Hl HF; simpl in *; [lia|].
  inversion HF as [|? ? Hx HF']; subst. rewrite Hx.
  destruct (Z.eqb_spec (dt + 1) (win_length b)); [reflexivity|]. simpl.
  destruct (opt_marker_eqb (get_piece_at b x (y + (pos - x))) m);
    [destruct (Z.eqb_spec (td + 1) (win_length b))
    |destruct (Z.eqb_spec 0 (win_length b))]; auto; apply IH; auto; lia.
Qed.

Lemma diagonal_scan_segment_td b pos y m seg post td dt :
  0 <= td < win_length b -> 0 <= dt < win_length b ->
  win_length b <= td + Z.of_nat (length seg) ->
  Forall (fun x => opt_marker_eqb (get_piece_at b x (y + (pos - x))) m = true) seg ->
  diagonal_scan b pos y m (seg ++ post) td dt = true.
Proof.
  revert td dt; induction seg as [|x seg IH]; intros td dt Htd Hdt Hl HF; simpl in *; [lia|].
  inversion HF as [|? ? Hx HF']; subst. rewrite Hx.
  destruct (opt_marker_eqb (get_piece_at b x (y + (x - pos))) m);
    [destruct (Z.eqb_spec (dt + 1) (win_length b))
    |destruct (Z.eqb_spec 0 (win_length b))];
  destruct (Z.eqb_spec (td + 1) (win_length b)); simpl;
  rewrite ?orb_true_r; auto; apply IH; auto; lia.
Qed.

Lemma run_through_elim b pos dx dy :
  run_through b pos dx dy = true ->
  exists k, 0 <= k < win_length b /\
    forall j, 0 <= j < win_length b ->
      cell_in b (pos + (j - k) * dx) (get_column_height b pos - 1 + (j - k) * dy) = true /\
      opt_marker_eqb (get_piece_at b (pos + (j - k) * dx)
                        (get_column_height b pos - 1 + (j - k) * dy))
                     (get_top_piece b pos) = true.
Proof.
  unfold run_through. rewrite existsb_exists. intros (k & Hk & Hf).
  apply In_py_range in Hk. exists k. split; [exact Hk|].
  intros j Hj. rewrite forallb_forall in Hf.
  apply andb_prop. apply Hf. apply In_py_range. exact Hj.
Qed.

Lemma run_through_segment b pos dy :
  run_through b pos 1 dy = true ->
  exists s, 0 <= s /\ s <= pos /\ s + win_length b <= width b /\ 1 <= win_length b /\
    Z.of_nat (length (py_range s (s + win_length b))) = win_length b /\
    Forall (fun x => opt_marker_eqb
              (get_piece_at b x (get_column_height b pos - 1 + (x - pos) * dy))
              (get_top_piece b pos) = true)
           (py_range s (s + win_length b)).
Proof.
  intros H. destruct (run_through_elim b pos 1 dy H) as (k & Hk & Hf).
  exists (pos - k).
  destruct (Hf 0 ltac:(lia)) as [C0 _]. destruct (Hf (win_length b - 1) ltac:(lia)) as [C1 _].
  unfold cell_in in C0, C1. rewrite !andb_true_iff, !Z.leb_le, !Z.ltb_lt in C0, C1.
  split; [lia|]. split; [lia|]. split; [lia|]. split; [lia|]. split.
  { rewrite length_py_range. lia. }
  apply Forall_forall. intros x Hx. apply In_py_range in Hx.
  destruct (Hf (x - pos + k) ltac:(lia)) as [_ E].
  replace (x - pos + k - k) with (x - pos) in E by lia.
  replace (pos + (x - pos) * 1) with x in E by lia. exact E.
Qed.

Lemma top_piece_some b pos :
  0 <= get_column_height b pos - 1 ->
  exists v, get_top_piece b pos = Some v.
Proof.
  unfold get_top_piece, get_piece_at, get_column_height, column. intros H.
  destruct (py_index (board b) pos) as [c|]; simpl in *; [|lia].
  unfold py_index. destruct (Z.ltb_spec (Z.of_nat (length c) - 1) 0); [lia|].
  rewrite (proj2 (andb_true_iff _ _)) by (rewrite Z.leb_le, Z.ltb_lt; lia).
  destruct (nth_error c (Z.to_nat (Z.of_nat (length c) - 1))) as [v|] eqn:E.
  - exists v; reflexivity.
  - apply nth_error_None in E. lia.
Qed.

(** The window [range(leftmost_win, rightmost_win + 1)] of the scans holds
    any [win_length] consecutive on-board columns starting left of [pos]. *)
Lemma scan_window_split b pos s :
  0 <= s -> s <= pos -> s + win_length b <= width b -> 0 <= win_length b ->
  py_range (Z.min 0 (pos - win_length b)) (Z.min (pos + win_length b) (width b - 1) + 1) =
  py_range (Z.min 0 (pos - win_length b)) s ++
  (py_range s (s + win_length b) ++
   py_range (s + win_length b) (Z.min (pos + win_length b) (width b - 1) + 1)).
Proof.
  intros. rewrite (py_range_split _ s) by lia. f_equal.
  apply py_range_split. lia.
Qed.

Lemma check_win_horizontal_complete b pos :
  0 <= get_column_height b pos - 1 -> run_through b pos 1 0 = true ->
  check_win_horizontal b pos = true.
Proof.
  intros Hy Hr. destruct (top_piece_some b pos Hy) as [v Hv].
  destruct (run_through_segment b pos 0 Hr) as (s & Hs0 & Hsp & Hsw & Hw & Hlen & HF).
  unfold check_win_horizontal. rewrite Hv.
  destruct (Z.ltb_spec (get_column_height b pos - 1) 0); [lia|]. simpl.
  rewrite <- Hv. rewrite (scan_window_split b pos s) by lia.
  apply horizontal_scan_prefix; [lia|]. intros c Hc.
  apply horizontal_scan_segment; [lia|lia|].
  eapply Forall_impl; [|exact HF]. intros x E. cbv beta in E.
  now rewrite Z.mul_0_r, Z.add_0_r in E.
Qed.

Lemma check_win_diagonals_complete_dt b pos :
  0 <= get_column_height b pos - 1 -> run_through b pos 1 1 = true ->
  check_win_diagonals b pos = true.
Proof.
  intros Hy Hr. destruct (top_piece_some b pos Hy) as [v Hv].
  destruct (run_through_segment b pos 1 Hr) as (s & Hs0 & Hsp & Hsw & Hw & Hlen & HF).
  unfold check_win_diagonals. rewrite Hv.
  destruct (Z.ltb_spec (get_column_height b pos - 1) 0); [lia|]. simpl.
  rewrite <- Hv. rewrite (scan_window_split b pos s) by lia.
  apply diagonal_scan_prefix; [lia|lia|]. intros td dt Htd Hdt.
  apply diagonal_scan_segment_dt; [lia|lia|lia|].
  eapply Forall_impl; [|exact HF]. intros x E. cbv beta in E.
  now rewrite Z.mul_1_r in E.
Qed.

Lemma check_win_diagonals_complete_td b pos :
  0 <= get_column_height b pos - 1 -> run_through b pos 1 (-1) = true ->
  check_win_diagonals b pos = true.
Proof.
  intros Hy Hr. destruct (top_piece_some b pos Hy) as [v Hv].
  destruct (run_through_segment b pos (-1) Hr) as (s & Hs0 & Hsp & Hsw & Hw & Hlen & HF).
  unfold check_win_diagonals. rewrite Hv.
  destruct (Z.ltb_spec (get_column_height b pos - 1) 0); [lia|]. simpl.
  rewrite <- Hv. rewrite (scan_window_split b pos s) by lia.
  apply diagonal_scan_prefix; [lia|lia|]. intros td dt Htd Hdt.
  apply diagonal_scan_segment_td; [lia|lia|lia|].
  eapply Forall_impl; [|exact HF]. intros x E. cbv beta in E.
  replace (get_column_height b pos - 1 + (pos - x))
    with (get_column_height b pos - 1 + (x - pos) * -1) by lia. exact E.
Qed.

Lemma py_index_negative {A} (xs : list A) i :
  - Z.of_nat (length xs) <= i < 0 -> py_index xs i = py_index xs (i + Z.of_nat (length xs)).
Proof.
  intros H. unfold py_index.
  destruct (Z.ltb_spec i 0); [|lia].
  destruct (Z.ltb_spec (i + Z.of_nat (length xs)) 0); [lia|]. reflexivity.
Qed.

Lemma get_piece_at_column b x y :
  column b x <> [] -> get_piece_at b x y = py_index (column b x) y.
Proof.
  unfold get_piece_at, column. destruct (py_index (board b) x); [reflexivity|].
  intros H; contradiction.
Qed.

Lemma check_win_vertical_complete b pos :
  0 <= get_column_height b pos - 1 -> run_through b pos 0 1 = true ->
  check_win_vertical b pos = true.
Proof.
  intros Hy Hr. destruct (run_through_elim b pos 0 1 Hr) as (k & Hk & Hf).
  destruct (Hf 0 ltac:(lia)) as [C0 _]. destruct (Hf (win_length b - 1) ltac:(lia)) as [C1 _].
  rewrite Z.mul_0_r, Z.add_0_r in C0, C1.
  unfold cell_in in C0, C1. rewrite !andb_true_iff, !Z.leb_le, !Z.ltb_lt in C0, C1.
  assert (Hne : column b pos <> []).
  { intros E. unfold get_column_height in Hy. rewrite E in Hy. simpl in Hy. lia. }
  unfold get_column_height in *.
  unfold check_win_vertical.
  destruct (Z.ltb_spec (Z.of_nat (length (column b pos))) (win_length b)); [lia|].
  apply forallb_forall. intros i Hi. apply In_py_range in Hi.
  destruct (Hf (win_length b - 2 - i) ltac:(lia)) as [_ E].
  rewrite Z.mul_0_r, Z.add_0_r, Z.mul_1_r in E.
  unfold get_top_piece, get_column_height in E.
  rewrite !get_piece_at_column in E by exact Hne.
  rewrite (py_index_negative _ (- (i + 2))) by lia.
  rewrite (py_index_negative _ (-1)) by lia.
  replace (- (i + 2) + Z.of_nat (length (column b pos)))
    with (Z.of_nat (length (column b pos)) - 1 + (win_length b - 2 - i - k)) by lia.
  replace (-1 + Z.of_nat (length (column b pos)))
    with (Z.of_nat (length (column b pos)) - 1) by lia.
  exact E.
Qed.

(** [Board.check_win] has no false negatives: when the top piece of column
    [pos] is one of [win_length] consecutive on-board cells in a row,
    a column or a diagonal that all hold its marker, [check_win pos] is
    [True]. *)
Theorem check_win_complete (b : Board) (pos : Z) :
  completes_run b pos = true -> check_win b pos = true.
Proof.
  unfold completes_run. intros H. apply andb_prop in H as [Hy H].
  apply Z.leb_le in Hy. unfold check_win.
  rewrite !orb_true_iff.
  apply orb_prop in H as [H|Htd]; [apply orb_prop in H as [H|Hdt]|];
    [apply orb_prop in H as [Hv|Hh]| |].
  - left; left. now apply check_win_vertical_complete.
  - left; right. now apply check_win_horizontal_complete.
  - right. now apply check_win_diagonals_complete_dt.
  - right. now apply check_win_diagonals_complete_td.
Qed.

Lemma check_win_complete_witness :
  completes_run (snd (play (new_board 3 4 4) [0; 1; 0; 1; 0])) 0 = true /\
  check_win (snd (play (new_board 3 4 4) [0; 1; 0; 1; 0])) 0 = true.
Proof.
  assert (H : completes_run (snd (play (new_board 3 4 4) [0; 1; 0; 1; 0])) 0 = true)
    by (vm_compute; reflexivity).
  exact (conj H (check_win_complete _ _ H)).
Defined.

(** * The game loop *)

(** [game] has no draw: once the board is full, every iteration of its
    loop (a typed move, bad input or the bot's move alike) leaves the board
    and the tree unchanged, so the loop never ends. *)
Theorem game_full_board_stalls (bot_player : marker) (st : GameState)
    (user_input : option Z) :
  wf_board (gboard st) -> is_full (gboard st) = true ->
  game_step bot_player st user_input = GameContinue st.
Proof.
  intros Hwf Hfull. pose proof (proj1 (is_full_in_board _ Hwf) Hfull) as Hno.
  unfold game_step.
  destruct (BOT && marker_eqb (turn (gboard st)) bot_player);
    [|destruct user_input as [pos|]; [|reflexivity]];
    unfold insert_piece; rewrite Hno; reflexivity.
Qed.

Lemma game_full_board_stalls_witness :
  wf_board (snd (play (new_board 4 2 1) [0; 1])) /\
  is_full (snd (play (new_board 4 2 1) [0; 1])) = true /\
  game_step p2 {| gboard := snd (play (new_board 4 2 1) [0; 1]);
                  gtree := new_node (snd (play (new_board 4 2 1) [0; 1])) |}
            (Some 1) =
  GameContinue {| gboard := snd (play (new_board 4 2 1) [0; 1]);
                  gtree := new_node (snd (play (new_board 4 2 1) [0; 1])) |}.
Proof.
  assert (W : wf_board (snd (play (new_board 4 2 1) [0; 1]))).
  { vm_compute. split; [reflexivity|]. repeat constructor; discriminate. }
  assert (F : is_full (snd (play (new_board 4 2 1) [0; 1])) = true) by reflexivity.
  split; [exact W|]. split; [exact F|].
  exact (game_full_board_stalls p2
           {| gboard := snd (play (new_board 4 2 1) [0; 1]);
              gtree := new_node (snd (play (new_board 4 2 1) [0; 1])) |}
           (Some 1) W F).
Defined.

(** When an iteration of [game] ends the loop, the column just played was
    accepted by [insert_piece], [check_win] saw it win, and the winner
    [game] announces is the player who made that move. *)
Theorem game_won_by_mover (bot_player : marker) (st st' : GameState)
    (user_input : option Z) :
  game_step bot_player st user_input = GameWon st' ->
  exists pos, insert_piece (gboard st) pos = (true, gboard st') /\
    check_win (gboard st') pos = true /\
    game_winner st' = turn (gboard st).
Proof.
  unfold game_step.
  destruct (if BOT && marker_eqb (turn (gboard st)) bot_player
            then Some (Z.of_nat (get_best_pos (gtree st))) else user_input)
    as [pos|]; [|discriminate].
  destruct (insert_piece (gboard st) pos) as [ok b'] eqn:E.
  destruct ok; [|discriminate].
  destruct (check_win b' pos) eqn:C.
  - intros H. injection H as <-. exists pos. simpl. repeat split; auto.
    unfold game_winner. simpl. unfold insert_piece in E.
    destruct (in_board (gboard st) pos); [|discriminate].
    injection E as <-. simpl. destruct (turn (gboard st)); reflexivity.
  - simpl. destruct (py_index (children (gtree st)) pos); discriminate.
Qed.

Lemma game_won_by_mover_witness :
  let st := {| gboard := snd (play (new_board 2 3 3) [0; 2]);
               gtree := new_node (snd (play (new_board 2 3 3) [0; 2])) |} in
  (exists st', game_step p2 st (Some 1) = GameWon st') /\
  game_winner (match game_step p2 st (Some 1) with
               | GameWon st' => st' | _ => st end) = p1.
Proof.
  intros st.
  assert (H : game_step p2 st (Some 1) =
              GameWon (match game_step p2 st (Some 1) with
                       | GameWon st' => st' | _ => st end)) by reflexivity.
  split; [eexists; exact H|].
  destruct (game_won_by_mover p2 st _ (Some 1) H) as (pos & _ & _ & Hw).
  etransitivity; [exact Hw|reflexivity].
Defined.

Lemma make_child_children b pos : children (make_child b pos) = [].
Proof.
  unfold make_child. destruct (insert_piece _ pos) as [[|] b1]; simpl; [|reflexivity].
  destruct (check_win b1 pos); [reflexivity|]. destruct (is_full b1); reflexivity.
Qed.

Lemma make_child_board b pos : nboard (make_child b pos) = snd (insert_piece (copy b) pos).
Proof.
  unfold make_child. destruct (insert_piece _ pos) as [[|] b1]; simpl; [|reflexivity].
  destruct (check_win b1 pos); [reflexivity|]. destruct (is_full b1); reflexivity.
Qed.

Lemma make_child_legal b pos :
  fst (insert_piece (copy b) pos) = true -> legal (make_child b pos) = true.
Proof.
  unfold make_child. destruct (insert_piece _ pos) as [[|] b1]; simpl; [|discriminate].
  intros _. destruct (check_win b1 pos); [reflexivity|]. destruct (is_full b1); reflexivity.
Qed.

(** After [populate] at a positive depth, a legal node that had no children
    or had the ones made from its board has the children made from its
    board: one per column, child [i] holding [insert_piece (copy b) i]. *)
Lemma populate_nat_child_boards d n :
  legal n = true ->
  (children n = [] \/ map nboard (children n) = map nboard (make_children (nboard n))) ->
  map nboard (children (fst (populate_nat (S d) n))) =
  map nboard (make_children (nboard n)).
Proof.
  intros L Hc. rewrite (populate_nat_children d n L).
  assert (HK : forall cs, map nboard (map (repopulate (populate_nat d)) cs) = map nboard cs).
  { intros cs. rewrite map_map. apply map_ext. intros c.
    exact (proj1 (repopulate_keeps d c)). }
  rewrite HK.
  destruct Hc as [C0|Hm].
  - replace (is_populated n) with false by (unfold is_populated; now rewrite C0).
    now rewrite C0.
  - destruct (is_populated n) eqn:P; [exact Hm|].
    rewrite (is_populated_false n P). reflexivity.
Qed.

Lemma py_index_map {A B} (f : A -> B) xs i :
  py_index (map f xs) i = option_map f (py_index xs i).
Proof.
  unfold py_index. rewrite length_map.
  destruct (_ && _); [|reflexivity]. apply nth_error_map.
Qed.

Lemma py_index_make_children b p :
  0 <= p < width b -> py_index (make_children b) p = Some (make_child b p).
Proof.
  intros Hp. unfold make_children.
  rewrite py_index_map, py_index_nonneg by lia.
  rewrite nth_error_py_range by lia. simpl. f_equal. f_equal. lia.
Qed.

Lemma copy_new_board wl w h : copy (new_board wl w h) = new_board wl w h.
Proof.
  unfold copy, new_board, copy_board_list. simpl. f_equal.
  induction (Z.to_nat w) as [|k IH]; simpl; [reflexivity|]. now rewrite IH.
Qed.

Lemma in_board_copy b x : in_board (copy b) x = in_board b x.
Proof. unfold in_board. rewrite column_copy. reflexivity. Qed.

Lemma new_board_wf wl w h : 0 <= w -> 0 <= h -> wf_board (new_board wl w h).
Proof.
  intros Hw Hh. unfold wf_board, new_board. simpl. split.
  - rewrite repeat_length. lia.
  - apply Forall_forall. intros c Hc. apply repeat_spec in Hc. subst. simpl. lia.
Qed.

(** An iteration of [game] whose move [pos] is accepted and does not win:
    the board after the move, and the child [pos] of the tree, populated. *)
Lemma game_step_moved bot_player st user_input pos st' :
  (if BOT && marker_eqb (turn (gboard st)) bot_player
   then Some (Z.of_nat (get_best_pos (gtree st))) else user_input) = Some pos ->
  fst (insert_piece (gboard st) pos) = true ->
  game_step bot_player st user_input = GameContinue st' ->
  exists t b', insert_piece (gboard st) pos = (true, b') /\
    py_index (children (gtree st)) pos = Some t /\
    st' = {| gboard := b'; gtree := fst (populate 5 t) |}.
Proof.
  intros Hin Hok H. unfold game_step in H. rewrite Hin in H.
  destruct (insert_piece (gboard st) pos) as [ok b'] eqn:E.
  simpl in Hok. subst ok.
  destruct (check_win b' pos); [discriminate|].
  change BOT with true in H. cbv iota in H.
  destruct (py_index (children (gtree st)) pos) as [t|]; [|discriminate].
  injection H as <-. exists t, b'. auto.
Qed.

(** With the bot playing player two ([game(..., False)], as [main] calls
    it), the bot's first move lands in the game as player two's marker,
    but the tree [game] keeps for the bot holds player one's marker there:
    the child boards are made from a [copy], whose turn is player one's. *)
Theorem game_tree_drifts (wl w h a : Z) (s1 s2 : GameState) (u : option Z) :
  fst (insert_piece (new_board wl w h) a) = true ->
  game_step (bot_player_of false) (game_start wl w h) (Some a) = GameContinue s1 ->
  fst (insert_piece (gboard s1) (Z.of_nat (get_best_pos (gtree s1)))) = true ->
  game_step (bot_player_of false) s1 u = GameContinue s2 ->
  let p := Z.of_nat (get_best_pos (gtree s1)) in
  column (gboard s2) p = column (gboard s1) p ++ [p2] /\
  column (nboard (gtree s2)) p = column (gboard s1) p ++ [p1].
Proof.
  intros Ha H1 Hb H2 p.
  set (b0 := new_board wl w h) in *.
  remember (fst (populate 5 (new_node b0))) as T0 eqn:HT0.
  assert (S0 : game_start wl w h = {| gboard := b0; gtree := T0 |})
    by (rewrite HT0; reflexivity).
  rewrite S0 in H1.
  destruct (game_step_moved (bot_player_of false) {| gboard := b0; gtree := T0 |}
              (Some a) a s1 eq_refl Ha H1) as (t & b1 & E1 & Et & ->).
  simpl gboard in *. simpl gtree in *.
  (* the game board after the first move *)
  assert (Hin0 := E1). unfold insert_piece in Hin0.
  destruct (in_board b0 a) eqn:Hin; [|discriminate]. clear Hin0.
  apply in_board_true in Hin as [Hap Hah].
  assert (W0 : wf_board b0).
  { apply new_board_wf; simpl in Hap, Hah |- *; lia. }
  assert (W1 : wf_board b1)
    by (pose proof (insert_piece_wf b0 a W0) as W; rewrite E1 in W; exact W).
  destruct (insert_piece_columns b0 a b1 W0 E1) as (_ & _ & _ & _ & _ & Ht1 & _).
  replace (if marker_eqb (turn b0) p1 then p2 else p1) with p2 in Ht1 by reflexivity.
  (* the first tree node: the child [a] of the root *)
  assert (HC0 : children T0 =
                map (repopulate (populate_nat 4)) (make_children b0)).
  { rewrite HT0. exact (populate_fresh_children (new_node b0) 5 eq_refl eq_refl
                          ltac:(lia)). }
  rewrite HC0, py_index_map, py_index_make_children in Et by exact Hap.
  injection Et as Et.
  assert (Et' : repopulate (populate_nat 4) (make_child b0 a) = t)
    by (rewrite <- Et; reflexivity).
  clear Et. rename Et' into Et.
  assert (Bca : nboard (make_child b0 a) = b1)
    by (rewrite make_child_board; unfold b0; rewrite copy_new_board; fold b0; now rewrite E1).
  assert (Lca : legal (make_child b0 a) = true)
    by (apply make_child_legal; unfold b0; rewrite copy_new_board; fold b0; now rewrite E1).
  destruct (repopulate_keeps 4 (make_child b0 a)) as (Bt & _ & Lt & _).
  rewrite Et in Bt, Lt. rewrite Bca in Bt. rewrite Lca in Lt.
  assert (Ct : children t = [] \/
               map nboard (children t) = map nboard (make_children (nboard t))).
  { rewrite <- Et. unfold repopulate. destruct (final (make_child b0 a)); cbn [negb].
    - left. apply make_child_children.
    - right. destruct (populate_nat_keeps 4 (make_child b0 a)) as (B4 & _).
      rewrite B4. apply populate_nat_child_boards; [exact Lca|].
      left. apply make_child_children. }
  pose proof (populate_nat_child_boards 4 t Lt Ct) as HC1.
  rewrite Bt in HC1.
  change (map nboard (children (fst (populate 5 t))) = map nboard (make_children b1))
    in HC1.
  (* the bot's move *)
  assert (Hbot : (if BOT && marker_eqb (turn b1) (bot_player_of false)
                  then Some (Z.of_nat (get_best_pos (fst (populate 5 t))))
                  else u) = Some p)
    by (rewrite Ht1; reflexivity).
  destruct (game_step_moved _ {| gboard := b1; gtree := fst (populate 5 t) |} u p s2
              Hbot Hb H2) as (t2 & b2 & E2 & Et2 & ->).
  simpl gboard in *. simpl gtree in *.
  destruct (insert_piece_columns b1 p b2 W1 E2) as (Hp & _ & _ & Hc2 & _).
  split.
  - rewrite (Hc2 p Hp), Z.eqb_refl, Ht1. reflexivity.
  - destruct (populate_nat_keeps 5 t2) as (B2 & _).
    unfold populate. change (Z.to_nat 5) with 5%nat. rewrite B2.
    assert (Hn : py_index (map nboard (children (fst (populate 5 t)))) p =
                 Some (nboard (make_child b1 p))).
    { rewrite HC1, py_index_map, (py_index_make_children b1 p Hp). reflexivity. }
    rewrite py_index_map, Et2 in Hn. simpl in Hn. injection Hn as ->. rewrite make_child_board.
    destruct (insert_piece (copy b1) p) as [ok3 c2] eqn:E3.
    assert (ok3 = true).
    { unfold insert_piece in E3. rewrite in_board_copy in E3.
      unfold insert_piece in E2. destruct (in_board b1 p); [|discriminate].
      injection E3 as <- _. reflexivity. }
    subst ok3.
    destruct (insert_piece_columns (copy b1) p c2 (copy_wf b1 W1) E3)
      as (Hp3 & _ & _ & Hc3 & _).
    simpl. rewrite (Hc3 p Hp3), Z.eqb_refl, column_copy. reflexivity.
Qed.

Lemma game_tree_drifts_witness :
  let st0 := game_start 4 3 3 in
  let s1 := match game_step (bot_player_of false) st0 (Some 0) with
            | GameContinue s => s | _ => st0 end in
  let s2 := match game_step (bot_player_of false) s1 None with
            | GameContinue s => s | _ => s1 end in
  fst (insert_piece (new_board 4 3 3) 0) = true /\
  game_step (bot_player_of false) st0 (Some 0) = GameContinue s1 /\
  fst (insert_piece (gboard s1) (Z.of_nat (get_best_pos (gtree s1)))) = true /\
  game_step (bot_player_of false) s1 None = GameContinue s2 /\
  column (nboard (gtree s2)) (Z.of_nat (get_best_pos (gtree s1))) <>
  column (gboard s2) (Z.of_nat (get_best_pos (gtree s1))).
Proof.
  cbv zeta.
  assert (H0 : fst (insert_piece (new_board 4 3 3) 0) = true) by reflexivity.
  assert (H1 : game_step (bot_player_of false) (game_start 4 3 3) (Some 0) =
               GameContinue (match game_step (bot_player_of false) (game_start 4 3 3) (Some 0) with
                             | GameContinue s => s | _ => game_start 4 3 3 end))
    by (vm_compute; reflexivity).
  set (s1 := match game_step (bot_player_of false) (game_start 4 3 3) (Some 0) with
             | GameContinue s => s | _ => game_start 4 3 3 end) in *.
  assert (H2 : fst (insert_piece (gboard s1) (Z.of_nat (get_best_pos (gtree s1)))) = true)
    by (vm_compute; reflexivity).
  assert (H3 : game_step (bot_player_of false) s1 None =
               GameContinue (match game_step (bot_player_of false) s1 None with
                             | GameContinue s => s | _ => s1 end))
    by (vm_compute; reflexivity).
  set (s2 := match game_step (bot_player_of false) s1 None with
             | GameContinue s => s | _ => s1 end) in *.
  split; [exact H0|]. split; [exact H1|]. split; [exact H2|]. split; [exact H3|].
  destruct (game_tree_drifts 4 3 3 0 s1 s2 None H0 H1 H2 H3) as [A B].
  cbv zeta in A, B. rewrite A, B. intros E.
  apply app_inv_head in E. discriminate.
Defined.

Lemma tree_ok_eq n :
  tree_ok n <->
  (children n = [] \/ map node_view (children n) = map node_view (make_children (nboard n))) /\
  Forall tree_ok (children n).
Proof.
  destruct n as [b s cs r f l]. simpl.
  split; intros [H1 H2]; (split; [exact H1|]); clear H1.
  - induction cs as [|c cs IH]; [constructor|].
    destruct H2 as [Hc Hr]. constructor; [exact Hc|exact (IH Hr)].
  - induction cs as [|c cs IH]; [exact I|].
    inversion H2 as [|? ? Hc Hr]; subst. split; [exact Hc|exact (IH Hr)].
Qed.

Lemma tree_ok_set_score n q : tree_ok n -> tree_ok (set_score n q).
Proof. rewrite !tree_ok_eq. simpl. auto. Qed.

Lemma make_child_tree_ok b pos : tree_ok (make_child b pos).
Proof.
  apply tree_ok_eq. rewrite make_child_children. split; [left; reflexivity|constructor].
Qed.

Lemma populate_nat_child_view d n :
  legal n = true ->
  (children n = [] \/ map node_view (children n) = map node_view (make_children (nboard n))) ->
  map node_view (children (fst (populate_nat (S d) n))) =
  map node_view (make_children (nboard n)).
Proof.
  intros L Hc. rewrite (populate_nat_children d n L).
  assert (HK : forall cs, map node_view (map (repopulate (populate_nat d)) cs) =
                          map node_view cs).
  { intros cs. rewrite map_map. apply map_ext. intros c. unfold node_view.
    destruct (repopulate_keeps d c) as (B & _ & Lg & _). now rewrite B, Lg. }
  rewrite HK.
  destruct Hc as [C0|Hm].
  - replace (is_populated n) with false by (unfold is_populated; now rewrite C0).
    now rewrite C0.
  - destruct (is_populated n) eqn:P; [exact Hm|].
    rewrite (is_populated_false n P). reflexivity.
Qed.

(** [populate] keeps a tree well built. *)
Lemma populate_nat_tree_ok d n : tree_ok n -> tree_ok (fst (populate_nat d n)).
Proof.
  revert n; induction d as [|d IH]; intros n H; [apply tree_ok_set_score, H|].
  destruct (legal n) eqn:L.
  2:{ simpl. rewrite L. apply tree_ok_set_score, H. }
  apply tree_ok_eq in H as [Hc HF].
  apply tree_ok_eq. destruct (populate_nat_keeps (S d) n) as (B & _). rewrite B.
  split; [right; exact (populate_nat_child_view d n L Hc)|].
  rewrite (populate_nat_children d n L). apply Forall_map.
  assert (Hall : Forall tree_ok (if is_populated n then children n
                                  else children n ++ make_children (nboard n))).
  { destruct (is_populated n); [exact HF|]. apply Forall_app. split; [exact HF|].
    apply Forall_forall. intros c Hin. unfold make_children in Hin.
    apply in_map_iff in Hin as (pos & <- & _). apply make_child_tree_ok. }
  eapply Forall_impl; [|exact Hall]. intros c Hc'. unfold repopulate.
  destruct (final c); cbn [negb]; [exact Hc'|]. apply IH, Hc'.
Qed.

Lemma column_length_map b x :
  length (column b x) =
  match py_index (map (@length marker) (board b)) x with Some k => k | None => 0%nat end.
Proof. unfold column. rewrite py_index_map. destruct (py_index (board b) x); reflexivity. Qed.

Lemma same_shape_column b b' x :
  same_shape b b' -> length (column b x) = length (column b' x).
Proof. intros (Hm & _ & _). now rewrite !column_length_map, Hm. Qed.

Lemma same_shape_in_board b b' x : same_shape b b' -> in_board b x = in_board b' x.
Proof.
  intros Hs. unfold in_board. rewrite (same_shape_column b b' x Hs).
  destruct Hs as (_ & -> & ->). reflexivity.
Qed.

Lemma same_shape_trans b1 b2 b3 : same_shape b1 b2 -> same_shape b2 b3 -> same_shape b1 b3.
Proof. intros (A & B & C) (D & E & F). repeat split; congruence. Qed.

Lemma same_shape_copy b : same_shape (copy b) b.
Proof.
  unfold same_shape, copy, copy_board_list. simpl. repeat split.
  rewrite map_map. apply map_ext. intros c. now rewrite map_id.
Qed.

Lemma map_list_set {A B} (f : A -> B) xs i v :
  map f (list_set xs i v) = list_set (map f xs) i (f v).
Proof.
  revert i; induction xs as [|x xs IH]; intros [|i]; simpl; try reflexivity.
  now rewrite IH.
Qed.

Lemma same_shape_insert b b' pos :
  same_shape b b' -> in_board b pos = true ->
  same_shape (snd (insert_piece b pos)) (snd (insert_piece b' pos)).
Proof.
  intros Hs Hin. pose proof Hin as Hin'. rewrite (same_shape_in_board b b' pos Hs) in Hin'.
  unfold insert_piece. rewrite Hin, Hin'. unfold same_shape. simpl.
  rewrite !map_list_set, !length_app, (same_shape_column b b' pos Hs).
  destruct Hs as (Hm & Hw & Hh). rewrite Hm, Hw, Hh. repeat split.
Qed.

Lemma game_start_inv wl w h : game_inv (game_start wl w h).
Proof.
  unfold game_inv, game_start. cbn [BOT gboard gtree].
  set (b0 := new_board wl w h).
  assert (Hroot : tree_ok (new_node b0))
    by (apply tree_ok_eq; split; [left; reflexivity|constructor]).
  destruct (populate_nat_keeps 5 (new_node b0)) as (B & _).
  unfold populate. change (Z.to_nat 5) with 5%nat. rewrite B.
  split; [apply populate_nat_tree_ok, Hroot|].
  split; [exact (populate_nat_child_view 4 (new_node b0) eq_refl (or_introl eq_refl))|].
  repeat split.
Qed.

(** One iteration of [game] from a state satisfying [game_inv] never
    crashes, and when the loop goes on the new state satisfies it again. *)
Lemma game_step_inv bot_player st user_input :
  game_inv st ->
  match game_step bot_player st user_input with
  | GameContinue st' => game_inv st'
  | GameWon _ => True
  | GameCrash => False
  end.
Proof.
  intros Hinv. pose proof Hinv as (Hok & Hv & Hs).
  unfold game_step.
  destruct (if BOT && marker_eqb (turn (gboard st)) bot_player
            then Some (Z.of_nat (get_best_pos (gtree st))) else user_input)
    as [pos|]; [|exact Hinv].
  destruct (insert_piece (gboard st) pos) as [ok b'] eqn:E.
  destruct ok; [|exact Hinv].
  destruct (check_win b' pos); [exact I|]. cbn [BOT].
  assert (Hin : in_board (gboard st) pos = true)
    by (unfold insert_piece in E; destruct (in_board (gboard st) pos); congruence).
  assert (HinT : in_board (nboard (gtree st)) pos = true)
    by (rewrite (same_shape_in_board _ _ pos Hs); exact Hin).
  apply in_board_true in HinT as [Hp _].
  assert (Hn : py_index (map node_view (children (gtree st))) pos =
               Some (node_view (make_child (nboard (gtree st)) pos)))
    by (rewrite Hv, py_index_map, py_index_make_children by exact Hp; reflexivity).
  rewrite py_index_map in Hn.
  destruct (py_index (children (gtree st)) pos) as [t|] eqn:Et; [|discriminate].
  unfold node_view in Hn. cbn [option_map] in Hn. injection Hn as Bt Lt.
  rewrite make_child_board in Bt.
  assert (Lt' : legal t = true).
  { rewrite Lt. apply make_child_legal. unfold insert_piece.
    rewrite (same_shape_in_board _ _ pos (same_shape_copy _)).
    rewrite (same_shape_in_board _ _ pos Hs), Hin. reflexivity. }
  assert (Hokt : tree_ok t).
  { apply tree_ok_eq in Hok as [_ HF]. rewrite Forall_forall in HF. apply HF.
    unfold py_index in Et. destruct (_ && _); [|discriminate].
    exact (nth_error_In _ _ Et). }
  unfold game_inv, populate. change (Z.to_nat 5) with 5%nat. cbn [gtree gboard].
  destruct (populate_nat_keeps 5 t) as (B5 & _). rewrite B5.
  split; [apply populate_nat_tree_ok, Hokt|].
  split; [apply populate_nat_child_view; [exact Lt'|]; apply tree_ok_eq in Hokt; apply Hokt|].
  rewrite Bt. replace b' with (snd (insert_piece (gboard st) pos)) by now rewrite E.
  apply same_shape_insert; [|rewrite (same_shape_in_board _ _ pos (same_shape_copy _));
                             rewrite (same_shape_in_board _ _ pos Hs); exact Hin].
  exact (same_shape_trans _ _ _ (same_shape_copy _) Hs).
Qed.

Lemma game_run_inv bot_player st inputs :
  game_inv st -> game_run bot_player st inputs <> GameCrash.
Proof.
  revert st; induction inputs as [|i is IH]; intros st Hinv; simpl; [discriminate|].
  pose proof (game_step_inv bot_player st i Hinv) as Hs.
  destruct (game_step bot_player st i) as [st'|st'|]; [apply IH, Hs|discriminate|contradiction].
Qed.

(** [game] never crashes on [tree.children[pos]]: whatever lines are typed,
    with the bot on either side, every accepted move finds its child in the
    tree ([IndexError] is never raised). *)
Theorem game_never_crashes (win_length width height : Z) (bot_p1 : bool)
    (inputs : list (option Z)) :
  game_run (bot_player_of bot_p1) (game_start win_length width height) inputs <> GameCrash.
Proof. apply game_run_inv, game_start_inv. Qed.

(** * Rendering *)

Lemma str_lines_app l r : ~ In NL l -> str_lines (l ++ NL :: r) = l :: str_lines r.
Proof.
  induction l as [|c l IH]; intros Hn; simpl; [reflexivity|].
  rewrite IH by (intros H; apply Hn; right; exact H).
  destruct (N.eqb_spec c NL) as [->|_]; [exfalso; apply Hn; left; reflexivity|].
  reflexivity.
Qed.

Lemma str_lines_concat (f : Z -> pstr) zs r :
  (forall z, In z zs -> ~ In NL (f z)) ->
  str_lines (concat (map (fun z => f z ++ [NL]) zs) ++ r) = map f zs ++ str_lines r.
Proof.
  induction zs as [|z zs IH]; intros Hn; simpl; [reflexivity|].
  rewrite <- !app_assoc. simpl. rewrite str_lines_app by (apply Hn; left; reflexivity).
  f_equal. apply IH. intros z' Hz'. apply Hn. right. exact Hz'.
Qed.

Lemma pstr_of_append s t : pstr_of (append s t) = pstr_of s ++ pstr_of t.
Proof. induction s as [|c s IH]; simpl; [reflexivity|]. unfold pstr_of in *. simpl. now rewrite IH. Qed.

Lemma digits_aux_no_nl fuel n acc :
  ~ In NL (pstr_of acc) -> ~ In NL (pstr_of (digits_aux fuel n acc)).
Proof.
  revert n acc; induction fuel as [|f IH]; intros n acc Hacc; simpl; [exact Hacc|].
  assert (Hd : ~ In NL (pstr_of (String (ascii_of_N (48 + N.modulo n 10)) acc))).
  { unfold pstr_of. cbn [list_ascii_of_string map]. intros [E|E]; [|exact (Hacc E)].
    pose proof (N.mod_lt n 10 ltac:(discriminate)) as Hlt.
    rewrite N_ascii_embedding in E by lia. unfold NL in E.
    remember (n mod 10)%N as k. lia. }
  destruct (N.ltb n 10); [exact Hd|]. apply IH, Hd.
Qed.

Lemma py_str_no_nl z : ~ In NL (pstr_of (py_str z)).
Proof.
  unfold py_str. destruct (z <? 0).
  - rewrite pstr_of_append. intros H. apply in_app_or in H as [H|H].
    + unfold pstr_of in H. simpl in H. destruct H as [H|[]]. discriminate.
    + revert H. apply digits_aux_no_nl. simpl. tauto.
  - apply digits_aux_no_nl. simpl. tauto.
Qed.

Lemma str_mul_no_nl s n : ~ In NL s -> ~ In NL (str_mul s n).
Proof.
  intros Hs H. unfold str_mul in H. apply in_concat in H as (l & Hl & Hin).
  apply repeat_spec in Hl. subst. exact (Hs Hin).
Qed.

(** The cells of a row, each followed by its separator. *)
Lemma row_loop_eq b y xs line :
  row_loop b y xs line =
  line ++ concat (map (fun x => get_piece_string b x y ++
                                if x <? width b - 1 then pstr_of "  " else []) xs).
Proof.
  revert line; induction xs as [|x xs IH]; intros line; simpl.
  - now rewrite app_nil_r.
  - rewrite IH. rewrite <- !app_assoc.
    destruct (x <? width b - 1); rewrite <- ?app_assoc; simpl; reflexivity.
Qed.

Lemma get_piece_string_length b x y : length (get_piece_string b x y) = 1%nat.
Proof.
  unfold get_piece_string. destruct (get_piece_at b x y) as [[|]|]; reflexivity.
Qed.

Lemma get_piece_string_no_nl b x y : ~ In NL (get_piece_string b x y).
Proof.
  unfold get_piece_string. destruct (get_piece_at b x y) as [[|]|]; simpl;
    intros [H|[]]; discriminate.
Qed.

Lemma row_line_no_nl b y : ~ In NL (row_line b y).
Proof.
  unfold row_line. rewrite row_loop_eq. simpl.
  intros [H|H]; [discriminate|].
  apply in_app_or in H as [H|H].
  - apply in_concat in H as (l & Hl & Hin). apply in_map_iff in Hl as (x & <- & _).
    apply in_app_or in Hin as [Hin|Hin]; [exact (get_piece_string_no_nl b x y Hin)|].
    destruct (x <? width b - 1); simpl in Hin; [|exact Hin].
    destruct Hin as [Hin|[Hin|[]]]; discriminate.
  - simpl in H. destruct H as [H|[H|H]]; try discriminate.
    exact (py_str_no_nl y H).
Qed.

Lemma rows_loop_eq b ys result :
  rows_loop b ys result =
  concat (map (fun y => row_line b y ++ [NL]) (rev ys)) ++ result.
Proof.
  revert result; induction ys as [|y ys IH]; intros result; [reflexivity|].
  cbn [rows_loop rev]. rewrite IH, map_app, concat_app, <- app_assoc. f_equal.
  cbn [map concat]. rewrite app_nil_r. unfold row_line. rewrite <- ?app_assoc.
  reflexivity.
Qed.

Lemma concat_length_3 (g : Z -> pstr) l :
  (forall a, In a l -> length (g a) = 3%nat) ->
  length (concat (map g l)) = (3 * length l)%nat.
Proof.
  induction l as [|a l IH]; intros H; simpl; [reflexivity|].
  rewrite length_app, H by (left; reflexivity).
  rewrite IH by (intros a' Ha'; apply H; right; exact Ha'). lia.
Qed.

(** [to_string] draws the board the right way up: on the line of row [y]
    (the rows come after the title, the blank line and the top border,
    the highest row first), the character under column [x] is the marker
    at [(x, y)], or a space where the column holds no piece there. *)
Theorem to_string_shows_cells (b : Board) (x y : Z) :
  0 <= x < width b -> 0 <= y < height b ->
  nth (1 + 3 * Z.to_nat x)
      (nth (3 + Z.to_nat (height b - 1 - y)) (str_lines (to_string b)) []) 0%N =
  match get_piece_at b x y with
  | Some Light => 9633%N  (* U+25A1 *)
  | Some Dark => 9632%N   (* U+25A0 *)
  | None => 32%N          (* " " *)
  end.
Proof.
  intros Hx Hy. unfold to_string. cbv zeta. rewrite rows_loop_eq.
  rewrite <- !app_assoc.
  set (L0 := pstr_of "To win, must get " ++ pstr_of (py_str (win_length b)) ++
             pstr_of " in a row.").
  set (border := str_mul [BOX_H; BOX_H; BOX_H] (width b - 2)).
  assert (HL0 : ~ In NL L0).
  { unfold L0. intros H. apply in_app_or in H as [H|H];
      [simpl in H; unfold NL in H; intuition discriminate|].
    apply in_app_or in H as [H|H]; [exact (py_str_no_nl _ H)|].
    simpl in H; unfold NL in H; intuition discriminate. }
  assert (Hbd : ~ In NL border)
    by (apply str_mul_no_nl; simpl; unfold NL; intuition discriminate).
  match goal with
  | |- context [str_lines ?t] =>
      replace t with
        (L0 ++ NL :: [] ++ NL :: ([BOX_DR; BOX_H; BOX_H] ++ border ++ [BOX_H; BOX_H; BOX_DL]) ++
         NL :: (concat (map (fun y => row_line b y ++ [NL]) (rev (py_range 0 (height b)))) ++
         [BOX_VR; BOX_H; BOX_H] ++ border ++ [BOX_H; BOX_H; BOX_VL; NL] ++
         [BOX_V] ++ str_join [RIGHT_EIGHTH; LEFT_QUARTER]
                      (map (fun x => pstr_of (py_str x)) (py_range 0 (width b))) ++
         [BOX_V] ++ [NL; BOX_UR; BOX_H; BOX_H] ++ border ++ [BOX_H; BOX_H; BOX_UL]))
  end.
  2:{ unfold L0. rewrite <- ?app_assoc. simpl. rewrite <- ?app_assoc. reflexivity. }
  rewrite str_lines_app by exact HL0.
  rewrite str_lines_app by (simpl; tauto).
  rewrite str_lines_app.
  2:{ intros H. apply in_app_or in H as [H|H];
        [simpl in H; unfold NL in H; intuition discriminate|].
      apply in_app_or in H as [H|H]; [exact (Hbd H)|].
      simpl in H; unfold NL in H; intuition discriminate. }
  rewrite str_lines_concat by (intros z _; apply row_line_no_nl).
  change (3 + Z.to_nat (height b - 1 - y))%nat with
    (S (S (S (Z.to_nat (height b - 1 - y))))).
  simpl nth at 1.
  assert (Hlen : length (rev (py_range 0 (height b))) = Z.to_nat (height b))
    by (rewrite length_rev, length_py_range; lia).
  rewrite app_nth1 by (rewrite length_map, Hlen; lia).
  rewrite nth_indep with (d' := row_line b 0) by (rewrite length_map, Hlen; lia).
  rewrite map_nth.
  rewrite rev_nth by (rewrite length_py_range; lia).
  rewrite length_py_range.
  replace (Z.to_nat (height b - 0) - S (Z.to_nat (height b - 1 - y)))%nat
    with (Z.to_nat y) by lia.
  replace (nth (Z.to_nat y) (py_range 0 (height b)) 0) with y.
  2:{ symmetry. apply nth_error_nth. rewrite nth_error_py_range by lia. f_equal. lia. }
  replace (Z.to_nat x + (Z.to_nat x + (Z.to_nat x + 0)))%nat with (3 * Z.to_nat x)%nat
    by lia.
  (* the row line *)
  unfold row_line. rewrite row_loop_eq. simpl app. simpl nth.
  rewrite (py_range_split 0 x (width b)) by lia.
  rewrite (py_range_cons x (width b)) by lia.
  rewrite map_app, concat_app. simpl map. simpl concat.
  assert (Hpre : length (concat (map (fun x0 => get_piece_string b x0 y ++
                   (if x0 <? width b - 1 then pstr_of "  " else [])) (py_range 0 x)))
                 = (3 * Z.to_nat x)%nat).
  { rewrite concat_length_3, length_py_range; [lia|].
    intros a Ha. apply In_py_range in Ha.
    rewrite length_app, get_piece_string_length.
    destruct (Z.ltb_spec a (width b - 1)); [reflexivity|lia]. }
  rewrite <- !app_assoc.
  rewrite app_nth2 by lia. rewrite Hpre, Nat.sub_diag.
  unfold get_piece_string. destruct (get_piece_at b x y) as [[|]|]; reflexivity.
Qed.

Lemma to_string_shows_cells_witness :
  0 <= 1 < width (snd (play (new_board 4 3 2) [0; 1; 1; 2])) /\
  0 <= 1 < height (snd (play (new_board 4 3 2) [0; 1; 1; 2])) /\
  nth 4 (nth 3 (str_lines (to_string (snd (play (new_board 4 3 2) [0; 1; 1; 2])))) []) 0%N
  = 9633%N.
Proof.
  assert (Ew : width (snd (play (new_board 4 3 2) [0; 1; 1; 2])) = 3) by reflexivity.
  assert (Eh : height (snd (play (new_board 4 3 2) [0; 1; 1; 2])) = 2) by reflexivity.
  assert (Hx : 0 <= 1 < width (snd (play (new_board 4 3 2) [0; 1; 1; 2])))
    by (rewrite Ew; lia).
  assert (Hy : 0 <= 1 < height (snd (play (new_board 4 3 2) [0; 1; 1; 2])))
    by (rewrite Eh; lia).
  split; [exact Hx|]. split; [exact Hy|].
  exact (to_string_shows_cells _ 1 1 Hx Hy).
Defined.
